(** * TrackRecord: the record codec, the query engine and the remote store client

    A shallow embedding of the data-management core of the TrackRecord page
    ([assets/js/utils.js], [assets/js/github-api.js], the application class
    [TrackRecordApp] and the configuration constants), with the properties
    its specification states about it.

    JavaScript strings are sequences of UTF-16 code units; they are modelled
    as [list N], one number per code unit.  Records are JavaScript objects
    used as maps from header names to strings; they are modelled as
    [gmap (list N) (list N)]. *)

From Stdlib Require Import String Ascii NArith ZArith Lia.
From stdpp Require Import gmap list.

Local Open Scope N_scope.

(** ** Strings *)

Abbreviation jsstring := (list N).

(** A string literal of the source, as code units. *)
Definition js (s : string) : jsstring :=
  map N_of_ascii (list_ascii_of_string s).

Arguments js : simpl never.

Definition QUOTE : N := 34.
Definition COMMA : N := 44.
Definition NEWLINE : N := 10.

(** The test that a string is the empty string. *)
Definition isEmpty (s : jsstring) : bool :=
  match s with [] => true | _ => false end.

(** The code units [String.prototype.trim] removes: ECMAScript's WhiteSpace
    and LineTerminator productions. *)
Definition isWhiteSpace (c : N) : bool :=
  (9 <=? c) && (c <=? 13)
  || (c =? 32) || (c =? 160) || (c =? 5760)
  || (8192 <=? c) && (c <=? 8202)
  || (c =? 8232) || (c =? 8233) || (c =? 8239) || (c =? 8287)
  || (c =? 12288) || (c =? 65279).

Fixpoint trimStart (s : jsstring) : jsstring :=
  match s with
  | [] => []
  | c :: s' => if isWhiteSpace c then trimStart s' else s
  end.

Definition trimEnd (s : jsstring) : jsstring := rev (trimStart (rev s)).

Definition trim (s : jsstring) : jsstring := trimEnd (trimStart s).

Definition startsWithSpace (s : jsstring) : bool :=
  match s with
  | [] => false
  | c :: _ => isWhiteSpace c
  end.

Definition endsWithSpace (s : jsstring) : bool := startsWithSpace (rev s).

(** A string that neither begins nor ends with a whitespace code unit. *)
Definition edgeWhiteSpace (s : jsstring) : bool :=
  startsWithSpace s || endsWithSpace s.

(** [s.split(sep)] for a separator of one code unit, the only use the
    source makes of it.  The result is never empty: the empty string
    splits to one empty string. *)
Fixpoint split (sep : N) (s : jsstring) : list jsstring :=
  match s with
  | [] => [[]]
  | c :: s' =>
      if c =? sep then [] :: split sep s'
      else match split sep s' with
           | [] => [[c]]
           | x :: xs => (c :: x) :: xs
           end
  end.

(** [parts.join(sep)] *)
Fixpoint join (sep : jsstring) (parts : list jsstring) : jsstring :=
  match parts with
  | [] => []
  | [x] => x
  | x :: xs => x ++ sep ++ join sep xs
  end.

Fixpoint startsWith (s t : jsstring) {struct t} : bool :=
  match t, s with
  | [], _ => true
  | _ :: _, [] => false
  | b :: t', a :: s' => (a =? b) && startsWith s' t'
  end.

(** [s.includes(t)] *)
Fixpoint includes (s t : jsstring) : bool :=
  startsWith s t ||
  match s with
  | [] => false
  | _ :: s' => includes s' t
  end.

(** The order of the language on strings: code units in dictionary
    order. *)
Fixpoint stringLt (a b : jsstring) : bool :=
  match a, b with
  | [], [] => false
  | [], _ :: _ => true
  | _ :: _, [] => false
  | x :: a', y :: b' =>
      if x <? y then true else if y <? x then false else stringLt a' b'
  end.

(** The global replacement of [arrayToCSV]: every double quote becomes two
    double quotes. *)
Fixpoint doubleQuotes (s : jsstring) : jsstring :=
  match s with
  | [] => []
  | c :: s' =>
      if c =? QUOTE then QUOTE :: QUOTE :: doubleQuotes s'
      else c :: doubleQuotes s'
  end.

(** ** Configuration constants *)

Module APP_CONFIG.
Definition CSV_HEADERS : list jsstring :=
  [ js "Date"; js "Context"; js "Project/Task"; js "Skills & Tools";
    js "Outcome/Deliverable"; js "Time Spent";
    js "Key Learnings/Challenges"; js "Next Steps"; js "Status";
    js "Tags" ].

Definition STATUS_OPTIONS : list jsstring :=
  [ js "In Progress"; js "Completed"; js "On Hold"; js "Cancelled";
    js "Planning" ].
End APP_CONFIG.

(** One entry of [VALIDATION_RULES].  A length of 0 stands for a length
    rule that is absent: the source tests the rule for truthiness, which
    an absent rule and 0 both fail. *)
Record rule := {
  required : bool;
  isDate : bool;
  minLength : N;
  maxLength : N;
  allowedValues : option (list jsstring)
}.

(** The rules, in the order of [Object.entries]. *)
Definition VALIDATION_RULES : list (jsstring * rule) :=
  [ (js "date",
     {| required := true; isDate := true; minLength := 0; maxLength := 0;
        allowedValues := None |});
    (js "context",
     {| required := true; isDate := false; minLength := 10;
        maxLength := 500; allowedValues := None |});
    (js "project",
     {| required := true; isDate := false; minLength := 3;
        maxLength := 200; allowedValues := None |});
    (js "skills",
     {| required := false; isDate := false; minLength := 0;
        maxLength := 300; allowedValues := None |});
    (js "outcome",
     {| required := false; isDate := false; minLength := 0;
        maxLength := 500; allowedValues := None |});
    (js "timeSpent",
     {| required := false; isDate := false; minLength := 0;
        maxLength := 100; allowedValues := None |});
    (js "tags",
     {| required := false; isDate := false; minLength := 0;
        maxLength := 200; allowedValues := None |});
    (js "learnings",
     {| required := false; isDate := false; minLength := 0;
        maxLength := 500; allowedValues := None |});
    (js "nextSteps",
     {| required := false; isDate := false; minLength := 0;
        maxLength := 500; allowedValues := None |});
    (js "status",
     {| required := true; isDate := false; minLength := 0; maxLength := 0;
        allowedValues := Some APP_CONFIG.STATUS_OPTIONS |}) ].

(** The repository the page reads and writes, as shipped. *)
Definition GITHUB_OWNER : jsstring := js "1Mangesh1".
Definition GITHUB_REPO : jsstring := js "trackrecord".
Definition CSV_FILE_PATH : jsstring := js "track_records.csv".
Definition GITHUB_API_BASE : jsstring := js "https://api.github.com".

Module ERROR_MESSAGES.
Definition GITHUB_NOT_CONFIGURED : jsstring :=
  js "GitHub configuration is missing. Please update config.js with your repository details.".
Definition GITHUB_AUTH_ERROR : jsstring :=
  js "Authentication failed. Please check your GitHub Personal Access Token.".
Definition GITHUB_RATE_LIMIT : jsstring :=
  js "GitHub API rate limit exceeded. Please try again later.".
End ERROR_MESSAGES.

(** ** Records *)

(** [obj[key] = value] on an object literal.  The key [__proto__] reaches
    the accessor of [Object.prototype], which ignores a string: no own
    property is created. *)
Definition setProperty (key value : jsstring)
    (obj : gmap (list N) (list N)) : gmap (list N) (list N) :=
  if decide (key = js "__proto__") then obj else <[key := value]> obj.

(** [obj[key]] with the empty string as fallback, for string-valued
    properties: a missing property and the empty string both give the empty
    string. *)
Definition getOrEmpty (obj : gmap (list N) (list N)) (key : jsstring)
    : jsstring :=
  default [] (obj !! key).

(** ** The remote protocol and the platform *)

Inductive method := GET | PUT.

(** The object [updateCSVContent] serialises as the body of its request. *)
Record requestBody := {
  message : jsstring;
  content : jsstring;
  body_sha : option jsstring
}.

(** What [makeRequest] hands to [fetch].  [getAuthToken] returns [null], so
    no request carries an authorisation header; the fixed headers are left
    out. *)
Record request := {
  url : jsstring;
  request_method : method;
  body : option requestBody
}.

(** The parsed body of a response, as far as the client reads it: the
    file object of a read ([type], [content], [sha]), the object of a write
    ([content.sha]), or an object with neither. *)
Inductive json :=
| FileData (type encoded revision : jsstring)
| WriteData (revision : jsstring)
| OtherData.

Record response := {
  status : N;
  statusText : jsstring;
  data : json
}.

(** [response.ok] *)
Definition ok (r : response) : bool := (200 <=? status r) && (status r <=? 299).

(** [fetch] either rejects or resolves with a response.  A body that is
    not JSON makes [response.json()] reject inside the same [try] block,
    with nothing done in between, and is covered by [Rejected]. *)
Inductive outcome :=
| Rejected (reason : jsstring)
| Responded (r : response).

(** The errors the client can throw, one constructor for each [throw] of
    the source and one for exceptions of the platform. *)
Inductive error :=
| NotConfigured
| AuthError
| RateLimit
| ApiError (code : N) (text : jsstring)
| NotAFile
| Thrown (reason : jsstring).

Fixpoint digits (d : Decimal.uint) : jsstring :=
  match d with
  | Decimal.Nil => []
  | Decimal.D0 d => 48 :: digits d
  | Decimal.D1 d => 49 :: digits d
  | Decimal.D2 d => 50 :: digits d
  | Decimal.D3 d => 51 :: digits d
  | Decimal.D4 d => 52 :: digits d
  | Decimal.D5 d => 53 :: digits d
  | Decimal.D6 d => 54 :: digits d
  | Decimal.D7 d => 55 :: digits d
  | Decimal.D8 d => 56 :: digits d
  | Decimal.D9 d => 57 :: digits d
  end.

(** A number inside a template literal. *)
Definition numberToString (n : N) : jsstring := digits (N.to_uint n).

(** [error.message] *)
Definition errorMessage (e : error) : jsstring :=
  match e with
  | NotConfigured => ERROR_MESSAGES.GITHUB_NOT_CONFIGURED
  | AuthError => ERROR_MESSAGES.GITHUB_AUTH_ERROR
  | RateLimit => ERROR_MESSAGES.GITHUB_RATE_LIMIT
  | ApiError code text =>
      js "GitHub API error: " ++ numberToString code ++ js " " ++ text
  | NotAFile => js "Repository path does not point to a file"
  | Thrown reason => reason
  end.

(** What the browser and the network provide.  [World] is the state of
    everything outside the page: the remote store and the clock. *)
Class Platform := {
  World : Type;
  (** [fetch(url, requestOptions)] *)
  fetch : request -> World -> outcome * World;
  (** [Date.now()] *)
  now : World -> Z;
  atob : jsstring -> error + jsstring;
  btoa : jsstring -> error + jsstring;
  (** The [TypeError] of reading a property of [undefined]. *)
  typeError : error;
  (** [String.prototype.toLowerCase] *)
  toLowerCase : jsstring -> jsstring;
  (** The time value of [new Date(s)]; [None] is [NaN]. *)
  dateTime : jsstring -> option Z;
  (** [Array.prototype.sort] with a comparator, on a copy of the array. *)
  arraySort : (gmap (list N) (list N) -> gmap (list N) (list N) -> Z) ->
              list (gmap (list N) (list N)) -> list (gmap (list N) (list N))
}.

(** ** Utils: the record codec *)

Module Utils.

(** The loop of [parseCSVLine]: [result], [current] and [inQuotes] are
    the three locals of the source. *)
Fixpoint parseCSVLine_loop (line : jsstring) (result : list jsstring)
    (current : jsstring) (inQuotes : bool) : list jsstring :=
  match line with
  | [] => result ++ [trim current]
  | char :: rest =>
      if char =? QUOTE then
        parseCSVLine_loop rest result current (negb inQuotes)
      else if (char =? COMMA) && negb inQuotes then
        parseCSVLine_loop rest (result ++ [trim current]) [] inQuotes
      else
        parseCSVLine_loop rest result (current ++ [char]) inQuotes
  end.

Definition parseCSVLine (line : jsstring) : list jsstring :=
  parseCSVLine_loop line [] [] false.

(** The [headers.forEach] of [csvToArray]: [obj[header]] is assigned
    [values[index]], or the empty string when that is missing or empty. *)
Fixpoint assignFields (headers : list jsstring) (index : nat)
    (values : list jsstring) (obj : gmap (list N) (list N))
    : gmap (list N) (list N) :=
  match headers with
  | [] => obj
  | header :: headers' =>
      assignFields headers' (S index) values
        (setProperty header (nth index values []) obj)
  end.

(** The [for] loop of [csvToArray] over [lines[1..]]. *)
Fixpoint csvToArray_loop (headers : list jsstring) (lines : list jsstring)
    (result : list (gmap (list N) (list N)))
    : list (gmap (list N) (list N)) :=
  match lines with
  | [] => result
  | line :: lines' =>
      if isEmpty (trim line) then csvToArray_loop headers lines' result
      else
        let values := parseCSVLine line in
        let obj := assignFields headers 0 values ∅ in
        csvToArray_loop headers lines' (result ++ [obj])
  end.

Definition csvToArray (csvString : jsstring)
    : list (gmap (list N) (list N)) :=
  if isEmpty csvString || isEmpty (trim csvString) then []
  else
    let lines := split NEWLINE (trim csvString) in
    let headers := map trim (split COMMA (hd [] lines)) in
    csvToArray_loop headers (tl lines) [].

(** The body of [headers.map(...)] in [arrayToCSV]. *)
Definition encodeValue (row : gmap (list N) (list N)) (header : jsstring)
    : jsstring :=
  let value := getOrEmpty row header in
  let escaped := doubleQuotes value in
  if includes escaped [COMMA] || includes escaped [NEWLINE]
  then [QUOTE] ++ escaped ++ [QUOTE]
  else escaped.

Definition encodeRow (row : gmap (list N) (list N)) : jsstring :=
  join [COMMA] (map (encodeValue row) APP_CONFIG.CSV_HEADERS).

Definition arrayToCSV (data : list (gmap (list N) (list N))) : jsstring :=
  match data with
  | [] => join [COMMA] APP_CONFIG.CSV_HEADERS ++ [NEWLINE]
  | _ =>
      join [NEWLINE]
        (join [COMMA] APP_CONFIG.CSV_HEADERS :: map encodeRow data)
  end.

Section WithPlatform.

Context `{Platform}.

Definition filterArray (array : list (gmap (list N) (list N)))
    (searchTerm : jsstring) (searchFields : list jsstring)
    : list (gmap (list N) (list N)) :=
  if isEmpty searchTerm || isEmpty (trim searchTerm) then array
  else
    let term := trim (toLowerCase searchTerm) in
    List.filter
      (fun item =>
         existsb
           (fun field =>
              match item !! field with
              | Some value =>
                  negb (isEmpty value)
                  && includes (toLowerCase value) term
              | None => false
              end)
           searchFields)
      array.

(** The two kinds of value the comparator of [sortArray] compares. *)
Inductive sortKey :=
| DateKey (time : option Z)
| StringKey (s : jsstring).

Definition sortKeyOf (field : jsstring) (row : gmap (list N) (list N))
    : sortKey :=
  let value := getOrEmpty row field in
  if decide (field = js "Date") then DateKey (dateTime value)
  else StringKey (toLowerCase value).

(** The relation [<] of the language on the two kinds of key: numbers
    for dates, with [NaN] below and above nothing, and code units in
    dictionary order for strings. *)
Definition keyLt (a b : sortKey) : bool :=
  match a, b with
  | DateKey (Some x), DateKey (Some y) => (x <? y)%Z
  | StringKey s, StringKey t => stringLt s t
  | _, _ => false
  end.

Definition comparator (field direction : jsstring)
    (a b : gmap (list N) (list N)) : Z :=
  let aVal := sortKeyOf field a in
  let bVal := sortKeyOf field b in
  if decide (direction = js "asc")
  then (if keyLt bVal aVal then 1 else -1)%Z
  else (if keyLt aVal bVal then 1 else -1)%Z.

Definition sortArray (array : list (gmap (list N) (list N)))
    (field direction : jsstring) : list (gmap (list N) (list N)) :=
  arraySort (comparator field direction) array.

End WithPlatform.

(** The elements of [new Set(items)] spread into an array: each element
    once, in the order of its first occurrence.  [seen] is the set so
    far. *)
Fixpoint addAll (seen items : list jsstring) : list jsstring :=
  match items with
  | [] => seen
  | item :: items' =>
      addAll (if bool_decide (item ∈ seen) then seen else seen ++ [item])
        items'
  end.

(** The test of the filter in [getUniqueValues]: the item is there, is
    not empty and is not blank. *)
Definition keepsItem (item : option jsstring) : option jsstring :=
  match item with
  | Some s => if isEmpty s || isEmpty (trim s) then None else Some s
  | None => None
  end.

(** [None] is an item that is [undefined], as a field a record lacks. *)
Definition getUniqueValues (array : list (option jsstring))
    : list jsstring :=
  addAll [] (omap keepsItem array).

(** The result of [validateFormData]. *)
Record validation := {
  isValid : bool;
  errors : gmap (list N) (list N)
}.

(** The test for a value that is missing, empty or blank. *)
Definition isBlank (value : option jsstring) : bool :=
  match value with
  | Some s => isEmpty s || isEmpty (trim s)
  | None => true
  end.

Section Validation.

Context `{Platform}.

(** [String.prototype.toUpperCase] *)
Variable toUpperCase : jsstring -> jsstring.

Definition capitalizeFirst (str : jsstring) : jsstring :=
  toUpperCase (take 1 str) ++ drop 1 str.

(** The assignment of an error and of [isValid = false]. *)
Definition fail (field message : jsstring) (result : validation)
    : validation :=
  {| isValid := false;
     errors := setProperty field message (errors result) |}.

(** The four checks on a value that is there and not blank. *)
Definition checkMinLength (field : jsstring) (rules : rule)
    (value : jsstring) (result : validation) : validation :=
  if negb (minLength rules =? 0)
     && (N.of_nat (length value) <? minLength rules)
  then fail field
         (capitalizeFirst field ++ js " must be at least "
          ++ numberToString (minLength rules) ++ js " characters") result
  else result.

Definition checkMaxLength (field : jsstring) (rules : rule)
    (value : jsstring) (result : validation) : validation :=
  if negb (maxLength rules =? 0)
     && (maxLength rules <? N.of_nat (length value))
  then fail field
         (capitalizeFirst field ++ js " must be no more than "
          ++ numberToString (maxLength rules) ++ js " characters") result
  else result.

Definition checkAllowedValues (field : jsstring) (rules : rule)
    (value : jsstring) (result : validation) : validation :=
  match allowedValues rules with
  | Some allowed =>
      if bool_decide (value ∈ allowed) then result
      else fail field
             (capitalizeFirst field ++ js " must be one of: "
              ++ join (js ", ") allowed) result
  | None => result
  end.

Definition checkDate (field : jsstring) (rules : rule)
    (value : jsstring) (result : validation) : validation :=
  if isDate rules && negb (isEmpty value) then
    match dateTime value with
    | Some _ => result
    | None => fail field (capitalizeFirst field ++ js " must be a valid date")
                result
    end
  else result.

(** The body of the loop of [validateFormData] for one rule. *)
Definition validateField (formData : gmap (list N) (list N))
    (result : validation) (entry : jsstring * rule) : validation :=
  let (field, rules) := entry in
  let value := formData !! field in
  if required rules && isBlank value then
    fail field (capitalizeFirst field ++ js " is required") result
  else if negb (required rules) && isBlank value then result
  else
    let value := default [] value in
    checkDate field rules value
      (checkAllowedValues field rules value
         (checkMaxLength field rules value
            (checkMinLength field rules value result))).

Definition validateFormData (formData : gmap (list N) (list N))
    : validation :=
  foldl (validateField formData) {| isValid := true; errors := ∅ |}
    VALIDATION_RULES.

End Validation.

End Utils.

(** ** GitHubAPI: the remote store client *)

(** The fields of a [GitHubAPI] instance.  [None] is [null]. *)
Record GitHubAPI := {
  owner : jsstring;
  repo : jsstring;
  csvPath : jsstring;
  base64Content : option jsstring;
  sha : option jsstring;
  lastFetch : option Z;
  cacheTimeout : Z
}.

(** The constructor. *)
Definition newGitHubAPI : GitHubAPI :=
  {| owner := GITHUB_OWNER; repo := GITHUB_REPO; csvPath := CSV_FILE_PATH;
     base64Content := None; sha := None; lastFetch := None;
     cacheTimeout := 5 * 60 * 1000 |}.

(** The instance with its three cache fields replaced. *)
Definition withCache (content : option jsstring) (revision : option jsstring)
    (fetched : option Z) (api : GitHubAPI) : GitHubAPI :=
  {| owner := owner api; repo := repo api; csvPath := csvPath api;
     base64Content := content; sha := revision; lastFetch := fetched;
     cacheTimeout := cacheTimeout api |}.

Section ClientState.

Context `{Platform}.

(** The instance, the world outside the page, and the requests handed to
    [fetch] so far, oldest first. *)
Record state := {
  this : GitHubAPI;
  world : World;
  requests : list request
}.

(** An asynchronous method of the client: it runs on a state and either
    throws or returns. *)
Definition M (A : Type) : Type := state -> (error + A) * state.

Definition ret {A} (a : A) : M A := fun st => (inr a, st).

Definition throw {A} (e : error) : M A := fun st => (inl e, st).

Definition bind {A B} (m : M A) (k : A -> M B) : M B :=
  fun st =>
    match m st with
    | (inl e, st') => (inl e, st')
    | (inr a, st') => k a st'
    end.

(** [try { m } catch (error) { handler }] *)
Definition tryCatch {A} (m : M A) (handler : error -> M A) : M A :=
  fun st =>
    match m st with
    | (inl e, st') => handler e st'
    | (inr a, st') => (inr a, st')
    end.

(** A call of the platform that returns or throws. *)
Definition lift {A} (r : error + A) : M A := fun st => (r, st).

Definition getThis : M GitHubAPI := fun st => (inr (this st), st).

Definition setThis (api : GitHubAPI) : M unit :=
  fun st =>
    (inr tt, {| this := api; world := world st; requests := requests st |}).

(** The assignments to [this.base64Content], [this.sha] and
    [this.lastFetch]. *)
Definition setBase64Content (value : option jsstring) : M unit :=
  fun st =>
    setThis (withCache value (sha (this st)) (lastFetch (this st))
               (this st)) st.

Definition setSha (value : option jsstring) : M unit :=
  fun st =>
    setThis (withCache (base64Content (this st)) value
               (lastFetch (this st)) (this st)) st.

Definition setLastFetch (value : option Z) : M unit :=
  fun st =>
    setThis (withCache (base64Content (this st)) (sha (this st)) value
               (this st)) st.

(** [Date.now()] *)
Definition dateNow : M Z := fun st => (inr (now (world st)), st).

End ClientState.

Declare Scope client_scope.
Delimit Scope client_scope with client.
Notation "x <- m ;; k" := (bind m (fun x => k))
  (at level 100, m at next level, right associativity) : client_scope.
Notation "m ;;; k" := (bind m (fun _ => k))
  (at level 100, right associativity) : client_scope.

(** [${value}] for a property that may be missing. *)
Definition interpolate (value : option jsstring) : jsstring :=
  default (js "undefined") value.

Module GitHubAPI.
Section WithPlatform.

Context `{Platform}.

Local Open Scope client_scope.

Definition isConfigured (api : GitHubAPI) : bool :=
  negb (isEmpty (owner api)) && negb (isEmpty (repo api))
  && negb (bool_decide (owner api = js "1Mangesh1"))
  && negb (bool_decide (repo api = js "trackrecord")).

Definition makeRequest (endpoint : jsstring) (method : method)
    (body : option requestBody) : M json :=
  fun st =>
    if negb (isConfigured (this st)) then (inl NotConfigured, st)
    else
      let request :=
        {| url := GITHUB_API_BASE ++ endpoint; request_method := method;
           body := body |} in
      let (result, world') := fetch request (world st) in
      let st' :=
        {| this := this st; world := world';
           requests := requests st ++ [request] |} in
      match result with
      | Rejected reason => (inl (Thrown reason), st')
      | Responded response =>
          if ok response then (inr (data response), st')
          else if status response =? 401 then (inl AuthError, st')
          else if status response =? 403 then (inl RateLimit, st')
          else
            (inl (ApiError (status response) (statusText response)), st')
      end.

(** The endpoint of the file. *)
Definition contentsEndpoint (api : GitHubAPI) : jsstring :=
  js "/repos/" ++ owner api ++ js "/" ++ repo api ++ js "/contents/"
  ++ csvPath api.

Definition updateCSVContent (content commitMessage : jsstring) : M bool :=
  api <- getThis ;;
  encodedContent <- lift (btoa content) ;;
  let requestBody :=
    {| message := commitMessage; content := encodedContent;
       body_sha := sha api |} in
  data <- makeRequest (contentsEndpoint api) PUT (Some requestBody) ;;
  setBase64Content (Some encodedContent) ;;;
  match data with
  | WriteData revision => setSha (Some revision)
  | FileData _ _ _ => setSha None
  | OtherData => throw typeError
  end ;;;
  fetched <- dateNow ;;
  setLastFetch (Some fetched) ;;;
  ret true.

Definition initialContent : jsstring :=
  join [COMMA] APP_CONFIG.CSV_HEADERS ++ [NEWLINE].

Definition createInitialCSV : M jsstring :=
  updateCSVContent initialContent (js "Initial CSV file creation") ;;;
  ret initialContent.

(** The [catch] block of [getCSVContent]. *)
Definition onReadError (error : error) : M jsstring :=
  if includes (errorMessage error) (js "404") then createInitialCSV
  else throw error.

(** The test that guards the cached path of [getCSVContent], at clock
    reading [time]. *)
Definition cacheIsFresh (api : GitHubAPI) (time : Z) : bool :=
  match base64Content api, lastFetch api with
  | Some content, Some fetched =>
      negb (isEmpty content) && negb (fetched =? 0)%Z
      && (time - fetched <? cacheTimeout api)%Z
  | _, _ => false
  end.

Definition getCSVContent (forceRefresh : bool) : M jsstring :=
  api <- getThis ;;
  time <- dateNow ;;
  if negb forceRefresh && cacheIsFresh api time
  then lift (atob (default [] (base64Content api)))
  else
    tryCatch
      (data <- makeRequest (contentsEndpoint api) GET None ;;
       match data with
       | FileData type encoded revision =>
           if bool_decide (type = js "file") then
             setBase64Content (Some encoded) ;;;
             setSha (Some revision) ;;;
             fetched <- dateNow ;;
             setLastFetch (Some fetched) ;;;
             lift (atob encoded)
           else throw NotAFile
       | _ => throw NotAFile
       end)
      onReadError.

Definition appendEntry (entry : gmap (list N) (list N)) : M bool :=
  currentContent <- getCSVContent false ;;
  let currentData := Utils.csvToArray currentContent in
  let currentData := currentData ++ [entry] in
  let newContent := Utils.arrayToCSV currentData in
  let commitMessage :=
    js "Add track record entry: "
    ++ interpolate (entry !! js "Project/Task") ++ js " - "
    ++ interpolate (entry !! js "Date") in
  updateCSVContent newContent commitMessage ;;;
  ret true.

Definition clearCache : M unit :=
  setBase64Content None ;;;
  setSha None ;;;
  setLastFetch None.

End WithPlatform.
End GitHubAPI.

(** ** TrackRecordApp: the view state and the handlers *)

(** The fields of the application object. *)
Record TrackRecordApp := {
  trackRecords : list (gmap (list N) (list N));
  filteredRecords : list (gmap (list N) (list N));
  currentFilters : gmap (list N) (list N);
  searchTerm : jsstring;
  sortField : jsstring;
  sortDirection : jsstring;
  currentPage : Z;
  pageSize : Z;
  currentEditIndex : Z;
  isEditMode : bool
}.

(** The constructor, before [init] runs. *)
Definition newTrackRecordApp : TrackRecordApp :=
  {| trackRecords := []; filteredRecords := []; currentFilters := ∅;
     searchTerm := []; sortField := js "Date"; sortDirection := js "desc";
     currentPage := 1; pageSize := 50; currentEditIndex := -1;
     isEditMode := false |}.

Definition setTrackRecords (v : list (gmap (list N) (list N)))
    (app : TrackRecordApp) : TrackRecordApp :=
  {| trackRecords := v; filteredRecords := filteredRecords app;
     currentFilters := currentFilters app; searchTerm := searchTerm app;
     sortField := sortField app; sortDirection := sortDirection app;
     currentPage := currentPage app; pageSize := pageSize app;
     currentEditIndex := currentEditIndex app; isEditMode := isEditMode app |}.

Definition setFilteredRecords (v : list (gmap (list N) (list N)))
    (app : TrackRecordApp) : TrackRecordApp :=
  {| trackRecords := trackRecords app; filteredRecords := v;
     currentFilters := currentFilters app; searchTerm := searchTerm app;
     sortField := sortField app; sortDirection := sortDirection app;
     currentPage := currentPage app; pageSize := pageSize app;
     currentEditIndex := currentEditIndex app; isEditMode := isEditMode app |}.

Definition setCurrentFilters (v : gmap (list N) (list N))
    (app : TrackRecordApp) : TrackRecordApp :=
  {| trackRecords := trackRecords app; filteredRecords := filteredRecords app;
     currentFilters := v; searchTerm := searchTerm app;
     sortField := sortField app; sortDirection := sortDirection app;
     currentPage := currentPage app; pageSize := pageSize app;
     currentEditIndex := currentEditIndex app; isEditMode := isEditMode app |}.

Definition setSearchTerm (v : jsstring) (app : TrackRecordApp)
    : TrackRecordApp :=
  {| trackRecords := trackRecords app; filteredRecords := filteredRecords app;
     currentFilters := currentFilters app; searchTerm := v;
     sortField := sortField app; sortDirection := sortDirection app;
     currentPage := currentPage app; pageSize := pageSize app;
     currentEditIndex := currentEditIndex app; isEditMode := isEditMode app |}.

Definition setSort (field direction : jsstring) (app : TrackRecordApp)
    : TrackRecordApp :=
  {| trackRecords := trackRecords app; filteredRecords := filteredRecords app;
     currentFilters := currentFilters app; searchTerm := searchTerm app;
     sortField := field; sortDirection := direction;
     currentPage := currentPage app; pageSize := pageSize app;
     currentEditIndex := currentEditIndex app; isEditMode := isEditMode app |}.

Definition setCurrentPage (v : Z) (app : TrackRecordApp) : TrackRecordApp :=
  {| trackRecords := trackRecords app; filteredRecords := filteredRecords app;
     currentFilters := currentFilters app; searchTerm := searchTerm app;
     sortField := sortField app; sortDirection := sortDirection app;
     currentPage := v; pageSize := pageSize app;
     currentEditIndex := currentEditIndex app; isEditMode := isEditMode app |}.

Definition setPageSize (v : Z) (app : TrackRecordApp) : TrackRecordApp :=
  {| trackRecords := trackRecords app; filteredRecords := filteredRecords app;
     currentFilters := currentFilters app; searchTerm := searchTerm app;
     sortField := sortField app; sortDirection := sortDirection app;
     currentPage := currentPage app; pageSize := v;
     currentEditIndex := currentEditIndex app; isEditMode := isEditMode app |}.

(** [array.splice(index, 1)]: the removed elements and the array that is
    left.  A negative index counts from the end. *)
Definition splice1 {A} (index : Z) (array : list A) : list A * list A :=
  let len := Z.of_nat (length array) in
  let start :=
    if (index <? 0)%Z then Z.max (len + index) 0 else Z.min index len in
  let k := Z.to_nat start in
  (take 1 (drop k array), take k array ++ drop (S k) array).

(** [array.slice(startIndex, endIndex)] *)
Definition slice {A} (startIndex endIndex : Z) (array : list A) : list A :=
  let len := Z.of_nat (length array) in
  let clamp i :=
    if (i <? 0)%Z then Z.max (len + i) 0 else Z.min i len in
  let from := Z.to_nat (clamp startIndex) in
  let to := Z.to_nat (clamp endIndex) in
  take (to - from)%nat (drop from array).

Module TrackRecordApp.
Section WithPlatform.

Context `{Platform}.

Local Open Scope client_scope.

Definition searchFields : list jsstring :=
  [ js "Context"; js "Project/Task"; js "Skills & Tools";
    js "Outcome/Deliverable"; js "Tags"; js "Key Learnings/Challenges" ].

(** The search step of [applyFilters]. *)
Definition applySearch (searchTerm : jsstring)
    (filtered : list (gmap (list N) (list N)))
    : list (gmap (list N) (list N)) :=
  if isEmpty searchTerm then filtered
  else Utils.filterArray filtered searchTerm searchFields.

(** The predicate of one field filter. *)
Definition fieldMatches (field value : jsstring)
    (record : gmap (list N) (list N)) : bool :=
  let recordValue := record !! field in
  if bool_decide (field = js "date")
  then bool_decide (recordValue = Some value)
  else
    match recordValue with
    | Some text =>
        negb (isEmpty text)
        && includes (toLowerCase text) (toLowerCase value)
    | None => false
    end.

(** The loop over [Object.entries(this.currentFilters)].  The filters
    commute, so the order of the entries does not show in the result. *)
Definition applyFieldFilters (filters : gmap (list N) (list N))
    (filtered : list (gmap (list N) (list N)))
    : list (gmap (list N) (list N)) :=
  map_fold
    (fun field value filtered =>
       if isEmpty value then filtered
       else List.filter (fieldMatches field value) filtered)
    filtered filters.

(** [renderTable] and [updateCounts] only write to the document. *)
Definition applyFilters (app : TrackRecordApp) : TrackRecordApp :=
  let filtered := trackRecords app in
  let filtered := applySearch (searchTerm app) filtered in
  let filtered := applyFieldFilters (currentFilters app) filtered in
  let filtered :=
    Utils.sortArray filtered (sortField app) (sortDirection app) in
  setFilteredRecords filtered app.

(** The listener of the search box, after the debounce delay. *)
Definition onSearchInput (value : jsstring) (app : TrackRecordApp)
    : TrackRecordApp :=
  applyFilters (setSearchTerm value app).

(** The listeners of the status, project and date filters: [name] is
    the property of [currentFilters] the listener assigns. *)
Definition onFilterChange (name value : jsstring) (app : TrackRecordApp)
    : TrackRecordApp :=
  applyFilters
    (setCurrentFilters (setProperty name value (currentFilters app)) app).

Definition clearFilters (app : TrackRecordApp) : TrackRecordApp :=
  applyFilters (setSearchTerm [] (setCurrentFilters ∅ app)).

Definition sortByField (field : jsstring) (app : TrackRecordApp)
    : TrackRecordApp :=
  let app :=
    if bool_decide (sortField app = field) then
      setSort (sortField app)
        (if bool_decide (sortDirection app = js "asc")
         then js "desc" else js "asc") app
    else setSort field (js "desc") app in
  applyFilters app.

(** The listener of the page size selector; [size] is the parsed
    value. *)
Definition onPageSizeChange (size : Z) (app : TrackRecordApp)
    : TrackRecordApp :=
  setCurrentPage 1 (setPageSize size app).

Definition goToPage (page : Z) (app : TrackRecordApp) : TrackRecordApp :=
  setCurrentPage page app.

Definition getPaginatedData (app : TrackRecordApp)
    : list (gmap (list N) (list N)) :=
  let startIndex := ((currentPage app - 1) * pageSize app)%Z in
  let endIndex := (startIndex + pageSize app)%Z in
  slice startIndex endIndex (filteredRecords app).

(** The number of pages [updatePagination] computes:
    [Math.ceil(totalEntries / this.pageSize)] for a positive page size. *)
Definition totalPages (app : TrackRecordApp) : Z :=
  let totalEntries := Z.of_nat (length (filteredRecords app)) in
  ((totalEntries + pageSize app - 1) / pageSize app)%Z.

(** The notification of the [catch] block is left out: a failed load
    leaves the application as it was. *)
Definition loadTrackRecords (app : TrackRecordApp)
    : state -> TrackRecordApp * state :=
  fun st =>
    match GitHubAPI.getCSVContent false st with
    | (inr csvContent, st') =>
        let records := Utils.csvToArray csvContent in
        let records := Utils.sortArray records (js "Date") (js "desc") in
        (applyFilters (setTrackRecords records app), st')
    | (inl _, st') => (app, st')
    end.

(** The remote part of [deleteEntry], inside its [try] block. *)
Definition deleteEntry_write (index : Z) : M bool :=
  currentContent <- GitHubAPI.getCSVContent false ;;
  let currentData := Utils.csvToArray currentContent in
  let (removed, currentData) := splice1 index currentData in
  let newContent := Utils.arrayToCSV currentData in
  match removed with
  | [] => throw typeError
  | deletedEntry :: _ =>
      let commitMessage :=
        js "Delete track record entry: "
        ++ interpolate (deletedEntry !! js "Project/Task") ++ js " - "
        ++ interpolate (deletedEntry !! js "Date") in
      GitHubAPI.updateCSVContent newContent commitMessage
  end.

(** [deleteEntry]: the error of a failed deletion is shown and dropped;
    after a successful one the records are loaded again. *)
Definition deleteEntry (index : Z) (app : TrackRecordApp)
    : state -> TrackRecordApp * state :=
  fun st =>
    match deleteEntry_write index st with
    | (inr _, st') => loadTrackRecords app st'
    | (inl _, st') => (app, st')
    end.

End WithPlatform.

(** The table of [getFieldNameByHeader]. *)
Definition getFieldNameByHeader (header : jsstring) : option jsstring :=
  if bool_decide (header = js "Date") then Some (js "date")
  else if bool_decide (header = js "Context") then Some (js "context")
  else if bool_decide (header = js "Project/Task") then Some (js "project")
  else if bool_decide (header = js "Skills & Tools") then Some (js "skills")
  else if bool_decide (header = js "Outcome/Deliverable")
  then Some (js "outcome")
  else if bool_decide (header = js "Time Spent") then Some (js "timeSpent")
  else if bool_decide (header = js "Key Learnings/Challenges")
  then Some (js "learnings")
  else if bool_decide (header = js "Next Steps") then Some (js "nextSteps")
  else if bool_decide (header = js "Status") then Some (js "status")
  else if bool_decide (header = js "Tags") then Some (js "tags")
  else None.

(** [getFormData] and [getEditFormData]: [form] is [FormData.get] on the
    form, [None] for a control the form lacks. *)
Definition getFormData (form : jsstring -> option jsstring)
    : gmap (list N) (list N) :=
  foldl
    (fun data header =>
       let fieldName := getFieldNameByHeader header in
       setProperty header (default [] (form (interpolate fieldName))) data)
    ∅ APP_CONFIG.CSV_HEADERS.

(** The first and the last page number [renderPageNumbers] shows. *)
Definition pageWindow (currentPage totalPages : Z) : Z * Z :=
  let maxVisiblePages := 5%Z in
  let startPage := Z.max 1 (currentPage - maxVisiblePages / 2) in
  let endPage := Z.min totalPages (startPage + maxVisiblePages - 1) in
  let startPage :=
    if (endPage - startPage + 1 <? maxVisiblePages)%Z
    then Z.max 1 (endPage - maxVisiblePages + 1)
    else startPage in
  (startPage, endPage).

(** The page numbers [renderPageNumbers] creates, in order. *)
Definition renderPageNumbers (app : TrackRecordApp) (totalPages : Z)
    : list Z :=
  let (startPage, endPage) := pageWindow (currentPage app) totalPages in
  seqZ startPage (endPage - startPage + 1).

End TrackRecordApp.

(** ** A sample platform *)

(** The transport encoding of the browser: [btoa] and [atob]. *)
Module Base64.

Definition alphabet : jsstring :=
  js "ABCDEFGHIJKLMNOPQRSTUVWXYZabcdefghijklmnopqrstuvwxyz0123456789+/".

Definition PAD : N := 61.

Definition toChar (sextet : N) : N := nth (N.to_nat sextet) alphabet PAD.

Fixpoint indexOf (c : N) (chars : jsstring) (index : N) : option N :=
  match chars with
  | [] => None
  | x :: chars' => if x =? c then Some index else indexOf c chars' (index + 1)
  end.

Definition fromChar (c : N) : option N := indexOf c alphabet 0.

Fixpoint encode (bytes : jsstring) : jsstring :=
  match bytes with
  | [] => []
  | [a] => [toChar (a / 4); toChar (a mod 4 * 16); PAD; PAD]
  | [a; b] =>
      [toChar (a / 4); toChar (a mod 4 * 16 + b / 16);
       toChar (b mod 16 * 4); PAD]
  | a :: b :: c :: rest =>
      toChar (a / 4) :: toChar (a mod 4 * 16 + b / 16)
      :: toChar (b mod 16 * 4 + c / 64) :: toChar (c mod 64) :: encode rest
  end.

(** [btoa] throws on a code unit above 255. *)
Definition btoa (s : jsstring) : error + jsstring :=
  if forallb (fun c => c <=? 255) s then inr (encode s)
  else inl (Thrown (js "Failed to execute 'btoa' on 'Window': The string to be encoded contains characters outside of the Latin1 range.")).

Definition isAsciiWhitespace (c : N) : bool :=
  (c =? 9) || (c =? 10) || (c =? 12) || (c =? 13) || (c =? 32).

(** One or two padding characters at the end of a string whose length is
    a multiple of four are removed. *)
Definition stripPadding (s : jsstring) : jsstring :=
  if (length s mod 4 =? 0)%nat then
    match rev s with
    | 61 :: 61 :: r => rev r
    | 61 :: r => rev r
    | _ => s
    end
  else s.

Fixpoint decode (sextets : list N) : jsstring :=
  match sextets with
  | a :: b :: c :: d :: rest =>
      (a * 4 + b / 16) :: (b mod 16 * 16 + c / 4) :: (c mod 4 * 64 + d)
      :: decode rest
  | [a; b; c] => [a * 4 + b / 16; b mod 16 * 16 + c / 4]
  | [a; b] => [a * 4 + b / 16]
  | _ => []
  end.

Fixpoint sextets (s : jsstring) : option (list N) :=
  match s with
  | [] => Some []
  | c :: s' =>
      match fromChar c, sextets s' with
      | Some x, Some xs => Some (x :: xs)
      | _, _ => None
      end
  end.

Definition atob (s : jsstring) : error + jsstring :=
  let failure :=
    Thrown (js "Failed to execute 'atob' on 'Window': The string to be decoded is not correctly encoded.") in
  let s := List.filter (fun c => negb (isAsciiWhitespace c)) s in
  let s := stripPadding s in
  if (length s mod 4 =? 1)%nat then inl failure
  else
    match sextets s with
    | Some xs => inr (decode xs)
    | None => inl failure
    end.

End Base64.

(** A remote store that follows the protocol the specification describes:
    one file with its transport-encoded content and its revision token.  A
    read of a missing file is answered 404; a write is accepted when the
    submitted token is the current one (none for a missing file) and gets
    a fresh token, and is answered 409 otherwise. *)
Module RemoteStore.

Record store := {
  file : option (jsstring * jsstring);
  writes : N;
  clock : Z
}.

Definition currentRevision (s : store) : option jsstring :=
  match file s with
  | Some (_, revision) => Some revision
  | None => None
  end.

Definition respond (code : N) (text : jsstring) (d : json) : outcome :=
  Responded {| status := code; statusText := text; data := d |}.

Definition serve (r : request) (s : store) : outcome * store :=
  match request_method r, body r with
  | GET, _ =>
      match file s with
      | Some (encoded, revision) =>
          (respond 200 (js "OK") (FileData (js "file") encoded revision), s)
      | None => (respond 404 (js "Not Found") OtherData, s)
      end
  | PUT, Some b =>
      if bool_decide (body_sha b = currentRevision s) then
        let revision := js "rev" ++ numberToString (writes s + 1) in
        (respond 200 (js "OK") (WriteData revision),
         {| file := Some (content b, revision); writes := writes s + 1;
            clock := clock s |})
      else (respond 409 (js "Conflict") OtherData, s)
  | PUT, None => (respond 422 (js "Unprocessable Entity") OtherData, s)
  end.

(** A repository that does not exist: every request is answered 404. *)
Definition missing (r : request) (s : store) : outcome * store :=
  (respond 404 (js "Not Found") OtherData, s).

End RemoteStore.

(** Lower case on the letters A to Z, every other code unit unchanged. *)
Definition asciiLower (c : N) : N :=
  if (65 <=? c) && (c <=? 90) then c + 32 else c.

Fixpoint insertBy {A} (compare : A -> A -> Z) (x : A) (sorted : list A)
    : list A :=
  match sorted with
  | [] => [x]
  | y :: sorted' =>
      if (compare x y <=? 0)%Z then x :: sorted
      else y :: insertBy compare x sorted'
  end.

Definition insertionSort {A} (compare : A -> A -> Z) (array : list A)
    : list A :=
  foldr (insertBy compare) [] array.

(** The sample platform: the store above behind [fetch], base 64 as the
    transport encoding, lower case on ASCII letters, no date parsing and an
    insertion sort. *)
Definition samplePlatform : Platform :=
  {| World := RemoteStore.store;
     fetch := RemoteStore.serve;
     now := RemoteStore.clock;
     atob := Base64.atob;
     btoa := Base64.btoa;
     typeError := Thrown (js "Cannot read properties of undefined");
     toLowerCase := map asciiLower;
     dateTime := fun _ => None;
     arraySort := insertionSort |}.

(** The sample platform in front of a repository that does not exist. *)
Definition missingPlatform : Platform :=
  {| World := RemoteStore.store;
     fetch := RemoteStore.missing;
     now := RemoteStore.clock;
     atob := Base64.atob;
     btoa := Base64.btoa;
     typeError := Thrown (js "Cannot read properties of undefined");
     toLowerCase := map asciiLower;
     dateTime := fun _ => None;
     arraySort := insertionSort |}.

(** A configured client: the repository of some user. *)
Definition sampleAPI : GitHubAPI :=
  {| owner := js "alice"; repo := js "records"; csvPath := CSV_FILE_PATH;
     base64Content := None; sha := None; lastFetch := None;
     cacheTimeout := 5 * 60 * 1000 |}.

(** ** Sample states of the client *)

(** A state of the sample platform with no request made yet. *)
Definition startAt (api : GitHubAPI) (store : RemoteStore.store)
    : @state samplePlatform :=
  @Build_state samplePlatform api store [].

Definition startMissing (api : GitHubAPI) (store : RemoteStore.store)
    : @state missingPlatform :=
  @Build_state missingPlatform api store [].

(** The request [getCSVContent] makes for the file. *)
Definition readRequest (api : GitHubAPI) : request :=
  {| url := GITHUB_API_BASE ++ GitHubAPI.contentsEndpoint api;
     request_method := GET; body := None |}.

(** The request [updateCSVContent] makes for encoded content. *)
Definition writeRequest (api : GitHubAPI) (encoded commitMessage : jsstring)
    : request :=
  {| url := GITHUB_API_BASE ++ GitHubAPI.contentsEndpoint api;
     request_method := PUT;
     body := Some {| message := commitMessage; content := encoded;
                     body_sha := sha api |} |}.

(** ** The decode example of the specification *)

Definition HEADER_LINE : jsstring :=
  js "Date,Context,Project/Task,Skills & Tools,Outcome/Deliverable,Time Spent,Key Learnings/Challenges,Next Steps,Status,Tags".

Definition example_line : jsstring :=
  [50;48;50;52;45;48;49;45;48;49;44;34] ++ js "did a, thing" ++ [34]
  ++ js ",Proj,JS,Shipped,2h,Learned X,Next Y,Completed,tag1".

Definition example_csv : jsstring := HEADER_LINE ++ [NEWLINE] ++ example_line.

Definition example_record : gmap (list N) (list N) :=
  <[js "Tags" := js "tag1"]>
  (<[js "Status" := js "Completed"]>
  (<[js "Next Steps" := js "Next Y"]>
  (<[js "Key Learnings/Challenges" := js "Learned X"]>
  (<[js "Time Spent" := js "2h"]>
  (<[js "Outcome/Deliverable" := js "Shipped"]>
  (<[js "Skills & Tools" := js "JS"]>
  (<[js "Project/Task" := js "Proj"]>
  (<[js "Context" := js "did a, thing"]>
  (<[js "Date" := js "2024-01-01"]> ∅))))))))).

(** The text of a file with the header line only, and its transport
    encoding. *)
Definition headerText : jsstring := HEADER_LINE ++ [NEWLINE].

Definition headerFile : jsstring := Base64.encode headerText.

(** The sample store holding [encoded] at [revision], at clock reading
    [time]. *)
Definition storeHolding (encoded revision : jsstring) (time : Z)
    : RemoteStore.store :=
  {| RemoteStore.file := Some (encoded, revision);
     RemoteStore.writes := 1;
     RemoteStore.clock := time |}.

(** The sample store without the file. *)
Definition storeWithoutFile (time : Z) : RemoteStore.store :=
  {| RemoteStore.file := None; RemoteStore.writes := 0;
     RemoteStore.clock := time |}.

(** A configured client that fetched the header-only file at time 1000,
    when its revision was [rev1]. *)
Definition cachedAPI : GitHubAPI :=
  withCache (Some headerFile) (Some (js "rev1")) (Some 1000%Z) sampleAPI.

(** The client as shipped, with the same cache. *)
Definition shippedAPI : GitHubAPI :=
  withCache (Some headerFile) (Some (js "rev1")) (Some 1000%Z) newGitHubAPI.

(** A text with a code unit outside Latin-1, an em dash. *)
Definition dashText : jsstring := headerText ++ js "2024-01-01,a " ++ [8212].

(** A string of ASCII code units. *)
Definition isAscii (s : jsstring) : bool := forallb (fun c => c <? 128) s.

(** ** Records that survive encoding and decoding *)

(** A field value without a double quote, without a newline and without
    whitespace at either end. *)
Definition safeValue (v : jsstring) : bool :=
  bool_decide (QUOTE ∉ v) && bool_decide (NEWLINE ∉ v)
  && negb (edgeWhiteSpace v).

(** A record whose fields are exactly the canonical headers, as the form
    handlers and the decoder of a canonical file build it. *)
Definition canonicalRecord (row : gmap (list N) (list N)) : bool :=
  bool_decide (dom row = list_to_set APP_CONFIG.CSV_HEADERS).

Definition roundTripSafe (row : gmap (list N) (list N)) : bool :=
  canonicalRecord row
  && forallb (fun header => safeValue (getOrEmpty row header))
       APP_CONFIG.CSV_HEADERS.

(** A record all of whose canonical fields are free of double quotes. *)
Definition quoteFree (row : gmap (list N) (list N)) : bool :=
  canonicalRecord row
  && forallb (fun header => bool_decide (QUOTE ∉ getOrEmpty row header))
       APP_CONFIG.CSV_HEADERS.

(** Every field name and every field value of the object is free of
    whitespace at both ends. *)
Definition trimmedObject (obj : gmap (list N) (list N)) : Prop :=
  forall name value, obj !! name = Some value ->
    edgeWhiteSpace name = false /\ edgeWhiteSpace value = false.

(** ** Sample inputs *)

(** The example record with whitespace in front of its Context value. *)
Definition padded_record : gmap (list N) (list N) :=
  <[js "Context" := js " did a thing"]> example_record.

(** A record whose fields are all empty. *)
Definition empty_record : gmap (list N) (list N) :=
  Utils.assignFields APP_CONFIG.CSV_HEADERS 0 [] ∅.

(** A two-column text with whitespace around names and values, also inside
    a quoted field. *)
Definition spaced_csv : jsstring :=
  js "Date , Context" ++ [NEWLINE] ++ js " 2024 ," ++ [QUOTE] ++ js " a b "
  ++ [QUOTE].

Definition spaced_record : gmap (list N) (list N) :=
  <[js "Context" := js "a b"]> (<[js "Date" := js "2024"]> ∅).

(** The application on page 2 of three records shown one per page. *)
Definition browsingApp : TrackRecordApp :=
  {| trackRecords := [example_record; empty_record; padded_record];
     filteredRecords := [example_record; empty_record; padded_record];
     currentFilters := ∅; searchTerm := [];
     sortField := js "Date"; sortDirection := js "desc";
     currentPage := 2; pageSize := 1; currentEditIndex := -1;
     isEditMode := false |}.

(** An entry whose Context has two lines, as a text area gives it. *)
Definition multilineEntry : gmap (list N) (list N) :=
  <[js "Context" := js "first line" ++ [NEWLINE] ++ js "second line"]>
    example_record.

(** What the first line of the encoded entry decodes to. *)
Definition firstLineRecord : gmap (list N) (list N) :=
  <[js "Context" := js "first line"]>
    (<[js "Date" := js "2024-01-01"]> empty_record).

(** What the second line of the encoded entry decodes to: the quote that
    closes the Context field opens a quoted field that runs to the end of
    the line. *)
Definition secondLineRecord : gmap (list N) (list N) :=
  <[js "Date" :=
      js "second line,Proj,JS,Shipped,2h,Learned X,Next Y,Completed,tag1"]>
    empty_record.

(** ** What decoding makes of an encoded value *)

(** The value without its double quotes. *)
Definition removeQuotes (v : jsstring) : jsstring :=
  List.filter (fun c => negb (c =? QUOTE)) v.

(** The value as it comes back from the file: without its double quotes,
    then trimmed. *)
Definition normalValue (v : jsstring) : jsstring := trim (removeQuotes v).

(** The record with exactly the canonical fields, each holding what comes
    back of the value the encoder reads for it. *)
Definition normalRecord (row : gmap (list N) (list N))
    : gmap (list N) (list N) :=
  list_to_map
    (map (fun header => (header, normalValue (getOrEmpty row header)))
       APP_CONFIG.CSV_HEADERS).

(** A record none of whose canonical fields holds a newline. *)
Definition newlineFree (row : gmap (list N) (list N)) : bool :=
  forallb (fun header => bool_decide (NEWLINE ∉ getOrEmpty row header))
    APP_CONFIG.CSV_HEADERS.

Definition allWhiteSpace (s : jsstring) : bool := forallb isWhiteSpace s.

(** The header names and the data lines [csvToArray] works on. *)
Definition headerNames (csvString : jsstring) : list jsstring :=
  map trim (split COMMA (hd [] (split NEWLINE (trim csvString)))).

Definition dataLines (csvString : jsstring) : list jsstring :=
  tl (split NEWLINE (trim csvString)).

(** A record with quotes, a comma and surrounding blanks in its Context. *)
Definition quoted_record : gmap (list N) (list N) :=
  <[js "Context" := js " say " ++ [QUOTE] ++ js "hi" ++ [QUOTE] ++ js ", ok "]>
    example_record.

(** A text whose header line names exactly the canonical fields, in any
    order. *)
Definition canonicalHeader (csvString : jsstring) : Prop :=
  list_to_set (headerNames csvString)
  = (list_to_set APP_CONFIG.CSV_HEADERS : gset (list N)).

(** Two records the encoder cannot tell apart: they agree on the ten
    canonical fields, a missing field counting as the empty string. *)
Definition sameCanonicalFields (row row' : gmap (list N) (list N)) : Prop :=
  Forall (fun header => getOrEmpty row header = getOrEmpty row' header)
    APP_CONFIG.CSV_HEADERS.

(** The canonical columns in another order, with blank lines after the
    header and around the data. *)
Definition shuffled_csv : jsstring :=
  js "Tags,Status,Next Steps,Key Learnings/Challenges,Time Spent,Outcome/Deliverable,Skills & Tools,Project/Task,Context,Date"
  ++ [NEWLINE; NEWLINE]
  ++ js "tag1,Completed,Next Y,Learned X,2h,Shipped,JS,Proj,did a thing,2024-01-01"
  ++ [NEWLINE] ++ js "   " ++ [NEWLINE]
  ++ js "t2,Planning,,,,,,Other,second thing,2024-02-01" ++ [NEWLINE].

(** The example record with a field the schema does not know and without
    its Tags. *)
Definition odd_record : gmap (list N) (list N) :=
  <[js "Mood" := js "fine"]> (delete (js "Tags") example_record).

(** A validation result that is valid exactly when it holds no error. *)
Definition consistent (result : Utils.validation) : Prop :=
  Utils.isValid result = true <-> Utils.errors result = ∅.

(** The error kinds the specification gives the remote store client. *)
Inductive errorKind :=
| ConfigurationError
| AuthenticationError
| RateLimitError
| RemoteApiError
| ConflictError.

(** The kind of an error of the client, by the statement that throws it:
    the configuration gate of [makeRequest], its branches for 401 and for
    403, and its branch for every other status outside 200..299.  No
    statement of the client throws a conflict error; the two other errors
    are outside the kinds of the specification. *)
Definition kindOf (e : error) : option errorKind :=
  match e with
  | NotConfigured => Some ConfigurationError
  | AuthError => Some AuthenticationError
  | RateLimit => Some RateLimitError
  | ApiError _ _ => Some RemoteApiError
  | NotAFile => None
  | Thrown _ => None
  end.

(** The error [makeRequest] throws for a response outside 200..299. *)
Definition refusal (r : response) : error :=
  if status r =? 401 then AuthError
  else if status r =? 403 then RateLimit
  else ApiError (status r) (statusText r).

(** The transport encoding of the file after another writer added a
    record to the header-only file. *)
Definition otherFile : jsstring :=
  Base64.encode (headerText ++ js "2024-02-02,other").

(** Two instances that point at the same file of the same repository,
    with the same cache timeout. *)
Definition sameRepository (a b : GitHubAPI) : Prop :=
  owner a = owner b /\ repo a = repo b /\ csvPath a = csvPath b /\
  cacheTimeout a = cacheTimeout b.

(** A method that, run from a state whose instance points at the file of
    [api], leaves the instance pointing at that file and hands at most [n]
    requests to [fetch], each for that file. *)
Definition withinFrom `{Platform} {A} (api : GitHubAPI) (n : nat) (m : M A)
    : Prop :=
  forall st : state,
    sameRepository api (this st) ->
    sameRepository (this st) (this (snd (m st))) /\
    exists new : list request,
      requests (snd (m st)) = requests st ++ new /\
      (length new <= n)%nat /\
      Forall
        (fun r => url r
                  = GITHUB_API_BASE ++ GitHubAPI.contentsEndpoint (this st))
        new.

(** The same from every state: the method keeps the instance on its file
    and makes at most [n] requests, each for the file of the instance. *)
Definition within `{Platform} {A} (n : nat) (m : M A) : Prop :=
  forall st : state,
    sameRepository (this st) (this (snd (m st))) /\
    exists new : list request,
      requests (snd (m st)) = requests st ++ new /\
      (length new <= n)%nat /\
      Forall
        (fun r => url r
                  = GITHUB_API_BASE ++ GitHubAPI.contentsEndpoint (this st))
        new.

(** * Properties *)

(** Closes a decidable closed goal by evaluation. *)
Ltac by_evaluation :=
  apply (bool_decide_eq_true_1 _); vm_compute; reflexivity.

(** ** Facts about the string primitives *)

Section StringFacts.

Implicit Types (s t : jsstring) (c sep : N).

Lemma trimStart_head s : startsWithSpace (trimStart s) = false.
Proof.
  induction s as [|c s IH]; simpl; [reflexivity|].
  destruct (isWhiteSpace c) eqn:E; [exact IH | simpl; exact E].
Qed.

Lemma trimStart_app_solid s c t :
  isWhiteSpace c = false -> trimStart (s ++ c :: t) = trimStart s ++ c :: t.
Proof.
  intros Hc. induction s as [|a s IH]; simpl.
  - rewrite Hc. reflexivity.
  - destruct (isWhiteSpace a); [exact IH | reflexivity].
Qed.

Lemma trimStart_id s : startsWithSpace s = false -> trimStart s = s.
Proof. destruct s as [|c s]; simpl; [reflexivity|]. intros ->. reflexivity. Qed.

Lemma trimEnd_id s : endsWithSpace s = false -> trimEnd s = s.
Proof.
  unfold endsWithSpace, trimEnd. intros H.
  rewrite trimStart_id by exact H. apply rev_involutive.
Qed.

Lemma trim_id s : edgeWhiteSpace s = false -> trim s = s.
Proof.
  unfold edgeWhiteSpace, trim. intros H.
  apply orb_false_iff in H as [H1 H2].
  rewrite (trimStart_id _ H1). apply trimEnd_id, H2.
Qed.

Lemma trimEnd_tail s : endsWithSpace (trimEnd s) = false.
Proof.
  unfold endsWithSpace, trimEnd. rewrite rev_involutive.
  apply trimStart_head.
Qed.

Lemma trimEnd_head s :
  startsWithSpace s = false -> startsWithSpace (trimEnd s) = false.
Proof.
  destruct s as [|c s]; [reflexivity|]. simpl. intros Hc.
  unfold trimEnd. simpl rev.
  rewrite (trimStart_app_solid (rev s) c [] Hc).
  rewrite rev_app_distr. simpl. exact Hc.
Qed.

Lemma trim_edges s : edgeWhiteSpace (trim s) = false.
Proof.
  unfold edgeWhiteSpace, trim. apply orb_false_iff. split.
  - apply trimEnd_head, trimStart_head.
  - apply trimEnd_tail.
Qed.

(** *** split and join *)

Lemma split_solid sep s : sep ∉ s -> split sep s = [s].
Proof.
  induction s as [|c s IH]; intros H; simpl; [reflexivity|].
  apply not_elem_of_cons in H as [Hc Hs].
  destruct (N.eqb_spec c sep) as [->|_]; [congruence|].
  rewrite (IH Hs). reflexivity.
Qed.

Lemma split_app sep s t :
  sep ∉ s -> split sep (s ++ sep :: t) = s :: split sep t.
Proof.
  induction s as [|c s IH]; intros H; simpl.
  - rewrite N.eqb_refl. reflexivity.
  - apply not_elem_of_cons in H as [Hc Hs].
    destruct (N.eqb_spec c sep) as [->|_]; [congruence|].
    rewrite (IH Hs). reflexivity.
Qed.

Lemma split_join sep (parts : list jsstring) :
  parts <> [] -> Forall (fun part => sep ∉ part) parts ->
  split sep (join [sep] parts) = parts.
Proof.
  induction parts as [|x xs IH]; intros Hne Hall; [congruence|].
  apply Forall_cons in Hall as [Hx Hxs].
  destruct xs as [|y ys].
  - simpl. apply split_solid, Hx.
  - change (join [sep] (x :: y :: ys))
      with (x ++ sep :: join [sep] (y :: ys)).
    rewrite (split_app _ _ _ Hx), IH; [reflexivity|discriminate|exact Hxs].
Qed.

(** *** includes *)

Lemma startsWith_spec s t : startsWith s t = true <-> exists u, s = t ++ u.
Proof.
  revert s. induction t as [|b t IH]; intros s; simpl.
  - split; [intros _; exists s; reflexivity | reflexivity].
  - destruct s as [|a s].
    + split; [discriminate | intros [u Hu]; discriminate].
    + rewrite andb_true_iff, IH, N.eqb_eq. split.
      * intros [-> [u ->]]. exists u. reflexivity.
      * intros [u Hu]. injection Hu as -> ->. split; [reflexivity|].
        exists u. reflexivity.
Qed.

(** [includes s t] holds exactly when [t] occurs in [s]. *)
Lemma includes_spec s t :
  includes s t = true <-> exists pre post, s = pre ++ t ++ post.
Proof.
  induction s as [|a s IH].
  - simpl. rewrite orb_false_r, startsWith_spec. split.
    + intros [u Hu]. exists [], u. exact Hu.
    + intros [pre [post H]]. destruct pre; [exists post; exact H|discriminate].
  - cbn [includes]. rewrite orb_true_iff, startsWith_spec, IH. split.
    + intros [[u Hu]|[pre [post H]]].
      * exists [], u. exact Hu.
      * exists (a :: pre), post. rewrite H. reflexivity.
    + intros [pre [post H]]. destruct pre as [|p pre].
      * left. exists post. exact H.
      * right. injection H as _ ->. exists pre, post. reflexivity.
Qed.

Lemma includes_char s c : includes s [c] = true <-> c ∈ s.
Proof.
  rewrite includes_spec. split.
  - intros [pre [post ->]]. apply elem_of_app. right. left.
  - intros H. apply list_elem_of_split in H as [pre [post ->]].
    exists pre, post. reflexivity.
Qed.

Lemma includes_char_false s c : includes s [c] = false <-> c ∉ s.
Proof.
  rewrite <- includes_char. destruct (includes s [c]); intuition congruence.
Qed.

Lemma doubleQuotes_id s : QUOTE ∉ s -> doubleQuotes s = s.
Proof.
  induction s as [|c s IH]; intros H; simpl; [reflexivity|].
  apply not_elem_of_cons in H as [Hc Hs].
  destruct (N.eqb_spec c QUOTE) as [->|_]; [congruence|].
  rewrite (IH Hs). reflexivity.
Qed.

End StringFacts.

(** ** Facts about edges of concatenations and joins *)

Section EdgeFacts.

Implicit Types (s t : jsstring) (c sep : N).

Lemma startsWithSpace_app s t :
  startsWithSpace (s ++ t) =
  if isEmpty s then startsWithSpace t else startsWithSpace s.
Proof. destruct s; reflexivity. Qed.

Lemma endsWithSpace_app s t :
  endsWithSpace (s ++ t) =
  if isEmpty t then endsWithSpace s else endsWithSpace t.
Proof.
  unfold endsWithSpace. rewrite rev_app_distr, startsWithSpace_app.
  destruct t as [|c t]; simpl; [reflexivity|].
  destruct (rev t); reflexivity.
Qed.

Lemma edgeWhiteSpace_split s :
  edgeWhiteSpace s = false <->
  startsWithSpace s = false /\ endsWithSpace s = false.
Proof. unfold edgeWhiteSpace. apply orb_false_iff. Qed.

(** Joining edge-free parts with a separator that is not whitespace
    gives an edge-free string. *)
Lemma join_edges sep (parts : list jsstring) :
  isWhiteSpace sep = false ->
  Forall (fun part => edgeWhiteSpace part = false) parts ->
  edgeWhiteSpace (join [sep] parts) = false.
Proof.
  intros Hsep. induction 1 as [|x xs Hx Hxs IH]; [reflexivity|].
  destruct xs as [|y ys]; [exact Hx|].
  change (join [sep] (x :: y :: ys)) with (x ++ sep :: join [sep] (y :: ys)).
  apply edgeWhiteSpace_split in Hx as [Hx1 Hx2].
  apply edgeWhiteSpace_split in IH as [IH1 IH2].
  apply edgeWhiteSpace_split. split.
  - rewrite startsWithSpace_app. destruct x; [exact Hsep | exact Hx1].
  - rewrite endsWithSpace_app. simpl isEmpty.
    change (sep :: join [sep] (y :: ys))
      with ([sep] ++ join [sep] (y :: ys)).
    rewrite endsWithSpace_app.
    destruct (join [sep] (y :: ys)); [exact Hsep | exact IH2].
Qed.

Lemma join_not_elem c sep_str (parts : list jsstring) :
  c ∉ sep_str -> Forall (fun part => c ∉ part) parts ->
  c ∉ join sep_str parts.
Proof.
  intros Hsep. induction 1 as [|x xs Hx Hxs IH]; [apply not_elem_of_nil|].
  destruct xs as [|y ys]; [exact Hx|].
  change (join sep_str (x :: y :: ys))
    with (x ++ sep_str ++ join sep_str (y :: ys)).
  rewrite !elem_of_app. tauto.
Qed.

Lemma join_two_nonempty sep (x y : jsstring) (parts : list jsstring) :
  join [sep] (x :: y :: parts) <> [].
Proof.
  change (join [sep] (x :: y :: parts))
    with (x ++ sep :: join [sep] (y :: parts)).
  destruct x; discriminate.
Qed.

(** A join of non-empty parts none of which ends with whitespace does
    not end with whitespace, whatever the separator. *)
Lemma join_lines_end sep_str (parts : list jsstring) :
  Forall (fun part => part <> [] /\ endsWithSpace part = false) parts ->
  endsWithSpace (join sep_str parts) = false.
Proof.
  induction 1 as [|x xs [Hne Hx] Hxs IH]; [reflexivity|].
  destruct xs as [|y ys]; [exact Hx|].
  change (join sep_str (x :: y :: ys))
    with (x ++ sep_str ++ join sep_str (y :: ys)).
  apply Forall_cons in Hxs as [[Hy _] _].
  assert (Hj : join sep_str (y :: ys) <> []).
  { destruct ys; [exact Hy|].
    change (join sep_str (y :: l :: ys))
      with (y ++ sep_str ++ join sep_str (l :: ys)).
    destruct y; [congruence | discriminate]. }
  rewrite app_assoc, endsWithSpace_app.
  destruct (join sep_str (y :: ys)); [congruence | exact IH].
Qed.

End EdgeFacts.

(** ** Facts about the codec *)

Section CodecFacts.

Import Utils.

Implicit Types (row obj : gmap (list N) (list N)) (v key : jsstring).

(** Code units other than a quote and, outside quotes, a comma are
    appended to [current]. *)
Lemma loop_plain v rest result current inQuotes :
  QUOTE ∉ v -> inQuotes = true \/ COMMA ∉ v ->
  parseCSVLine_loop (v ++ rest) result current inQuotes =
  parseCSVLine_loop rest result (current ++ v) inQuotes.
Proof.
  revert current. induction v as [|c v IH]; intros current Hq Hc; simpl.
  - rewrite app_nil_r. reflexivity.
  - apply not_elem_of_cons in Hq as [Hq1 Hq2].
    destruct (N.eqb_spec c QUOTE) as [->|_]; [congruence|].
    assert (E : (c =? COMMA) && negb inQuotes = false).
    { destruct Hc as [->|Hc]; [apply andb_false_r|].
      apply not_elem_of_cons in Hc as [Hc _].
      destruct (N.eqb_spec c COMMA); [congruence | reflexivity]. }
    rewrite E, IH, <- app_assoc; [reflexivity | exact Hq2 |].
    destruct Hc as [Hc|Hc]; [left; exact Hc | right].
    apply not_elem_of_cons in Hc as [_ Hc]. exact Hc.
Qed.

(** An encoded field free of quotes is read back as the field itself,
    whether or not the encoder wrapped it in quotes. *)
Lemma loop_encoded row header rest result current :
  QUOTE ∉ getOrEmpty row header ->
  parseCSVLine_loop (encodeValue row header ++ rest) result current false =
  parseCSVLine_loop rest result (current ++ getOrEmpty row header) false.
Proof.
  intros Hq. unfold encodeValue. rewrite (doubleQuotes_id _ Hq).
  destruct (includes (getOrEmpty row header) [COMMA]) eqn:Ec.
  - simpl orb. cbv iota. rewrite <- !app_assoc. simpl.
    rewrite loop_plain by (auto). simpl. reflexivity.
  - destruct (includes (getOrEmpty row header) [NEWLINE]) eqn:En; simpl orb; cbv iota.
    + rewrite <- !app_assoc. simpl.
      rewrite loop_plain by (auto). simpl. reflexivity.
    + apply includes_char_false in Ec. apply loop_plain; auto.
Qed.

Lemma parse_joined row (headers : list jsstring) result :
  headers <> [] ->
  Forall (fun header => (QUOTE ∉ getOrEmpty row header) /\
                        edgeWhiteSpace (getOrEmpty row header) = false)
         headers ->
  parseCSVLine_loop (join [COMMA] (map (encodeValue row) headers))
    result [] false
  = result ++ map (getOrEmpty row) headers.
Proof.
  intros Hne Hall. revert result.
  induction Hall as [|h hs [Hq He] Hhs IH]; intros result; [congruence|].
  destruct hs as [|h' hs'].
  - simpl. rewrite <- (app_nil_r (encodeValue row h)).
    rewrite loop_encoded by exact Hq. simpl.
    rewrite (trim_id _ He). reflexivity.
  - change (join [COMMA] (map (encodeValue row) (h :: h' :: hs')))
      with (encodeValue row h ++
            COMMA :: join [COMMA] (map (encodeValue row) (h' :: hs'))).
    rewrite loop_encoded by exact Hq.
    cbn [parseCSVLine_loop app]. change (COMMA =? QUOTE) with false.
    rewrite N.eqb_refl. cbn [andb negb].
    rewrite IH by discriminate.
    rewrite (trim_id _ He), <- app_assoc. reflexivity.
Qed.

End CodecFacts.

Section ObjectFacts.

Import Utils.

Implicit Types (row obj : gmap (list N) (list N)) (v key : jsstring).

Lemma setProperty_other key key' value obj :
  key <> key' -> setProperty key value obj !! key' = obj !! key'.
Proof.
  intros Hne. unfold setProperty. case_decide; [reflexivity|].
  apply lookup_insert_ne, Hne.
Qed.

Lemma assignFields_other (headers : list jsstring) index values obj key :
  key ∉ headers ->
  assignFields headers index values obj !! key = obj !! key.
Proof.
  revert index obj. induction headers as [|h hs IH]; intros index obj Hk.
  - reflexivity.
  - apply not_elem_of_cons in Hk as [Hne Hk]. simpl.
    rewrite IH by exact Hk. apply setProperty_other. congruence.
Qed.

Lemma assignFields_at (headers : list jsstring) index values obj j key :
  NoDup headers -> js "__proto__" ∉ headers -> headers !! j = Some key ->
  assignFields headers index values obj !! key
  = Some (nth (index + j)%nat values []).
Proof.
  revert index obj j.
  induction headers as [|h hs IH]; intros index obj j Hnd Hp Hj.
  - discriminate.
  - apply NoDup_cons in Hnd as [Hh Hnd].
    apply not_elem_of_cons in Hp as [Hp1 Hp2].
    destruct j as [|j]; simpl in *.
    + injection Hj as ->. rewrite assignFields_other by exact Hh.
      unfold setProperty. case_decide; [congruence|].
      rewrite lookup_insert_eq, Nat.add_0_r. reflexivity.
    + rewrite (IH (S index) _ j Hnd Hp2 Hj).
      rewrite Nat.add_succ_r. reflexivity.
Qed.

Lemma csvToArray_loop_app headers (lines : list jsstring) result :
  csvToArray_loop headers lines result
  = result ++ csvToArray_loop headers lines [].
Proof.
  revert result. induction lines as [|line lines IH]; intros result; simpl.
  - rewrite app_nil_r. reflexivity.
  - destruct (isEmpty (trim line)); [apply IH|].
    rewrite IH, (IH [_]), app_assoc. reflexivity.
Qed.

(** Rebuilding a canonical record from its own field values gives the
    record back. *)
Lemma assignFields_canonical row :
  canonicalRecord row = true ->
  assignFields APP_CONFIG.CSV_HEADERS 0
    (map (getOrEmpty row) APP_CONFIG.CSV_HEADERS) ∅ = row.
Proof.
  unfold canonicalRecord. intros Hdom. apply bool_decide_eq_true_1 in Hdom.
  assert (Hnd : NoDup APP_CONFIG.CSV_HEADERS) by by_evaluation.
  assert (Hp : js "__proto__" ∉ APP_CONFIG.CSV_HEADERS) by by_evaluation.
  apply map_eq. intros key.
  destruct (decide (key ∈ APP_CONFIG.CSV_HEADERS)) as [Hin|Hout].
  - destruct (proj1 (list_elem_of_lookup _ _) Hin) as [j Hj].
    rewrite (assignFields_at _ 0 _ _ j key Hnd Hp Hj).
    change (0 + j)%nat with j.
    assert (Hs : is_Some (row !! key)).
    { apply elem_of_dom. rewrite Hdom. apply elem_of_list_to_set, Hin. }
    destruct Hs as [v Hv]. rewrite Hv.
    rewrite (nth_lookup_Some _ j [] (getOrEmpty row key)).
    + unfold getOrEmpty. rewrite Hv. reflexivity.
    + rewrite list_lookup_fmap, Hj. reflexivity.
  - rewrite assignFields_other by exact Hout. rewrite lookup_empty.
    symmetry. apply not_elem_of_dom. rewrite Hdom.
    rewrite elem_of_list_to_set. exact Hout.
Qed.

End ObjectFacts.

(** ** The round trip through [arrayToCSV] and [csvToArray] *)

Section RoundTrip.

Import Utils.

Implicit Types (row : gmap (list N) (list N)).

Lemma safeValue_spec v :
  safeValue v = true ->
  (QUOTE ∉ v) /\ (NEWLINE ∉ v) /\ edgeWhiteSpace v = false.
Proof.
  unfold safeValue. rewrite !andb_true_iff, negb_true_iff.
  intros [[Hq Hn] He]. apply bool_decide_eq_true_1 in Hq, Hn. auto.
Qed.

Lemma roundTripSafe_spec row :
  roundTripSafe row = true ->
  canonicalRecord row = true /\
  Forall (fun header => safeValue (getOrEmpty row header) = true)
    APP_CONFIG.CSV_HEADERS.
Proof.
  unfold roundTripSafe. rewrite andb_true_iff, forallb_forall.
  intros [Hc Hall]. split; [exact Hc|].
  apply Forall_forall. intros h Hh. apply Hall, list_elem_of_In, Hh.
Qed.

Lemma encodeValue_shape row header :
  safeValue (getOrEmpty row header) = true ->
  edgeWhiteSpace (encodeValue row header) = false /\
  (NEWLINE ∉ encodeValue row header).
Proof.
  intros Hs. apply safeValue_spec in Hs as (Hq & Hn & He).
  unfold encodeValue. rewrite (doubleQuotes_id _ Hq).
  destruct (includes _ [COMMA] || includes _ [NEWLINE]); [|auto].
  split.
  - apply edgeWhiteSpace_split. split; [reflexivity|].
    rewrite app_assoc, endsWithSpace_app. reflexivity.
  - rewrite !elem_of_app, !list_elem_of_singleton.
    intros [E|[E|E]]; [discriminate E | exact (Hn E) | discriminate E].
Qed.

Lemma encodeRow_shape row :
  roundTripSafe row = true ->
  edgeWhiteSpace (encodeRow row) = false /\
  (NEWLINE ∉ encodeRow row) /\
  encodeRow row <> [] /\
  parseCSVLine (encodeRow row) = map (getOrEmpty row) APP_CONFIG.CSV_HEADERS.
Proof.
  intros Hs. apply roundTripSafe_spec in Hs as [_ Hall].
  unfold encodeRow. repeat split.
  - apply join_edges; [reflexivity|].
    apply Forall_fmap. eapply Forall_impl; [exact Hall|].
    intros h Hh. apply (encodeValue_shape row h Hh).
  - apply join_not_elem.
    + rewrite list_elem_of_singleton. discriminate.
    + apply Forall_fmap. eapply Forall_impl; [exact Hall|].
      intros h Hh. apply (encodeValue_shape row h Hh).
  - apply join_two_nonempty.
  - unfold parseCSVLine. rewrite parse_joined; [reflexivity|discriminate|].
    eapply Forall_impl; [exact Hall|].
    intros h Hh. apply safeValue_spec in Hh as (Hq & _ & He). auto.
Qed.

Lemma csvToArray_loop_encoded (data : list (gmap (list N) (list N))) :
  Forall (fun row => roundTripSafe row = true) data ->
  csvToArray_loop APP_CONFIG.CSV_HEADERS (map encodeRow data) [] = data.
Proof.
  induction 1 as [|row rows Hrow Hrows IH]; [reflexivity|].
  destruct (encodeRow_shape row Hrow) as (He & _ & Hne & Hparse).
  assert (Hfull : isEmpty (encodeRow row) = false)
    by (destruct (encodeRow row); [congruence | reflexivity]).
  cbn [map csvToArray_loop]. cbv zeta.
  rewrite (trim_id _ He), Hfull, Hparse, csvToArray_loop_app, IH.
  apply roundTripSafe_spec in Hrow as [Hc _].
  rewrite (assignFields_canonical row Hc). reflexivity.
Qed.

Lemma arrayToCSV_lines row (rows : list (gmap (list N) (list N))) :
  Forall (fun row => roundTripSafe row = true) (row :: rows) ->
  trim (arrayToCSV (row :: rows)) = arrayToCSV (row :: rows) /\
  split NEWLINE (arrayToCSV (row :: rows))
  = join [COMMA] APP_CONFIG.CSV_HEADERS :: map encodeRow (row :: rows).
Proof.
  intros Hall. unfold arrayToCSV.
  assert (Hlines : Forall (fun line => edgeWhiteSpace line = false /\
                            (NEWLINE ∉ line) /\ line <> [])
            (join [COMMA] APP_CONFIG.CSV_HEADERS :: map encodeRow (row :: rows))).
  { constructor.
    - split; [by_evaluation | split; [by_evaluation | discriminate]].
    - apply Forall_fmap. eapply Forall_impl; [exact Hall|].
      intros r Hr. destruct (encodeRow_shape r Hr) as (? & ? & ? & _). auto. }
  split.
  - apply trim_id, edgeWhiteSpace_split. split.
    + reflexivity.
    + apply join_lines_end. eapply Forall_impl; [exact Hlines|].
      intros line (He & _ & Hne). apply edgeWhiteSpace_split in He. tauto.
  - apply split_join; [discriminate|].
    eapply Forall_impl; [exact Hlines|]. intros line (_ & Hn & _). exact Hn.
Qed.

(** The round trip on a collection of safe records. *)
Lemma roundtrip_safe (data : list (gmap (list N) (list N))) :
  Forall (fun row => roundTripSafe row = true) data ->
  csvToArray (arrayToCSV data) = data.
Proof.
  intros Hall. destruct data as [|row rows]; [by_evaluation|].
  destruct (arrayToCSV_lines row rows Hall) as [Htrim Hsplit].
  unfold csvToArray. rewrite Htrim, Hsplit.
  assert (Hfull : isEmpty (arrayToCSV (row :: rows)) = false).
  { destruct (arrayToCSV (row :: rows)) eqn:E; [|reflexivity].
    exfalso. revert E. apply join_two_nonempty. }
  rewrite Hfull. cbn [orb hd tl].
  assert (Hheaders :
    map trim (split COMMA (join [COMMA] APP_CONFIG.CSV_HEADERS))
    = APP_CONFIG.CSV_HEADERS) by by_evaluation.
  rewrite Hheaders. apply csvToArray_loop_encoded, Hall.
Qed.

(** Removing one element at the index where an element was appended gives
    that element and the array as it was. *)
Lemma splice1_appended {A} (array : list A) (x : A) :
  splice1 (Z.of_nat (length array)) (array ++ [x]) = ([x], array).
Proof.
  unfold splice1. rewrite length_app. cbn [length].
  assert (Hpos : (Z.of_nat (length array) <? 0)%Z = false)
    by (apply Z.ltb_ge; lia).
  rewrite Hpos, Z.min_l by lia. rewrite Nat2Z.id.
  rewrite drop_app_length, take_app_length.
  rewrite drop_app_ge by lia.
  replace (S (length array) - length array)%nat with 1%nat by lia.
  cbn [drop take]. rewrite app_nil_r. reflexivity.
Qed.

(** The encoding and decoding steps of an append followed by a deletion
    at the index of the appended entry, on safe records: the entry is read
    back as one record at that index, and removing it leaves a collection
    that encodes and decodes to the one before the append. *)
Lemma append_then_delete_safe (data : list (gmap (list N) (list N)))
    (entry : gmap (list N) (list N)) :
  Forall (fun row => roundTripSafe row = true) (data ++ [entry]) ->
  splice1 (Z.of_nat (length data))
    (csvToArray (arrayToCSV (data ++ [entry]))) = ([entry], data) /\
  csvToArray (arrayToCSV data) = data.
Proof.
  intros Hall. rewrite (roundtrip_safe _ Hall). split.
  - apply splice1_appended.
  - apply roundtrip_safe. apply Forall_app in Hall as [Hdata _]. exact Hdata.
Qed.

End RoundTrip.

(** ** What the decoder produces is trimmed *)

Section Trimmed.

Import Utils.

Lemma parseCSVLine_loop_trimmed line (result : list jsstring) current q :
  Forall (fun v => edgeWhiteSpace v = false) result ->
  Forall (fun v => edgeWhiteSpace v = false)
    (parseCSVLine_loop line result current q).
Proof.
  revert result current q.
  induction line as [|c line IH]; intros result current q Hres; simpl.
  - apply Forall_app. split; [exact Hres|].
    constructor; [apply trim_edges | constructor].
  - destruct (c =? QUOTE); [apply IH, Hres|].
    destruct ((c =? COMMA) && negb q); [|apply IH, Hres].
    apply IH, Forall_app. split; [exact Hres|].
    constructor; [apply trim_edges | constructor].
Qed.

Lemma nth_trimmed index (values : list jsstring) :
  Forall (fun v => edgeWhiteSpace v = false) values ->
  edgeWhiteSpace (nth index values []) = false.
Proof.
  intros Hall. revert index.
  induction Hall as [|v vs Hv Hvs IH]; intros [|index]; simpl; auto.
Qed.

Lemma assignFields_trimmed (headers : list jsstring) index values obj :
  Forall (fun h => edgeWhiteSpace h = false) headers ->
  Forall (fun v => edgeWhiteSpace v = false) values ->
  trimmedObject obj ->
  trimmedObject (assignFields headers index values obj).
Proof.
  intros Hh Hv. revert index obj.
  induction Hh as [|h hs Hhead Hhs IH]; intros index obj Hobj; [exact Hobj|].
  simpl. apply IH. unfold setProperty. case_decide; [exact Hobj|].
  intros name value. rewrite lookup_insert. case_decide.
  - intros [= <-]. subst name. split; [exact Hhead|].
    apply nth_trimmed, Hv.
  - apply Hobj.
Qed.

Lemma csvToArray_loop_trimmed headers (lines : list jsstring) result :
  Forall (fun h => edgeWhiteSpace h = false) headers ->
  Forall trimmedObject result ->
  Forall trimmedObject (csvToArray_loop headers lines result).
Proof.
  intros Hh. revert result.
  induction lines as [|line lines IH]; intros result Hres; simpl; [exact Hres|].
  destruct (isEmpty (trim line)); [apply IH, Hres|].
  apply IH, Forall_app. split; [exact Hres|].
  constructor; [|constructor].
  apply assignFields_trimmed; [exact Hh | |].
  - apply parseCSVLine_loop_trimmed. constructor.
  - intros name value. rewrite lookup_empty. discriminate.
Qed.

Lemma csvToArray_trimmed csvString :
  Forall trimmedObject (csvToArray csvString).
Proof.
  unfold csvToArray.
  destruct (isEmpty csvString || isEmpty (trim csvString)); [constructor|].
  apply csvToArray_loop_trimmed; [|constructor].
  apply Forall_fmap, Forall_forall. intros h _. apply trim_edges.
Qed.

End Trimmed.

(** * The claims about the record codec *)

(** C1, as amended.  For every collection whose records carry exactly the
    canonical fields, with values that contain no double quote and no
    newline and that neither begin nor end with whitespace, decoding the
    encoded text gives the collection back, record for record and field
    for field, in order. *)
Theorem csvToArray_arrayToCSV_roundtrip
    (data : list (gmap (list N) (list N))) :
  forallb roundTripSafe data = true ->
  Utils.csvToArray (Utils.arrayToCSV data) = data.
Proof.
  intros Hsafe. apply roundtrip_safe.
  apply Forall_forall. intros row Hrow.
  apply (proj1 (forallb_forall _ _) Hsafe), list_elem_of_In, Hrow.
Qed.

Lemma csvToArray_arrayToCSV_roundtrip_witness :
  forallb roundTripSafe [example_record; empty_record] = true /\
  Utils.csvToArray (Utils.arrayToCSV [example_record; empty_record])
  = [example_record; empty_record].
Proof.
  split; [vm_compute; reflexivity|].
  apply (csvToArray_arrayToCSV_roundtrip [example_record; empty_record]).
  vm_compute; reflexivity.
Defined.

(** C1, as stated, fails: a value free of double quotes that begins with a
    space is decoded without the space, so the decoded collection differs
    from the encoded one in the Context field. *)
Lemma roundtrip_fails_on_padded_value :
  forallb quoteFree [padded_record] = true /\
  Utils.csvToArray (Utils.arrayToCSV [padded_record])
  = [<[js "Context" := js "did a thing"]> padded_record] /\
  Utils.csvToArray (Utils.arrayToCSV [padded_record]) <> [padded_record].
Proof.
  split; [vm_compute; reflexivity|]. split; by_evaluation.
Qed.

(** C7.  Decoding the header line followed by the example line gives exactly
    one record, whose Context is the text between the quotes with its comma
    kept, and whose Project/Task is Proj. *)
Theorem csvToArray_example :
  exists record,
    Utils.csvToArray example_csv = [record] /\
    record !! js "Context" = Some (js "did a, thing") /\
    record !! js "Project/Task" = Some (js "Proj").
Proof.
  exists example_record. split; [|split]; by_evaluation.
Qed.

(** C9.  Encoding the empty collection gives the canonical header line
    followed by one newline and nothing else. *)
Theorem arrayToCSV_empty :
  Utils.arrayToCSV [] = HEADER_LINE ++ [NEWLINE].
Proof. by_evaluation. Qed.

(** C10.  In every record decoded from any text, no field name and no field
    value begins or ends with a whitespace code unit. *)
Theorem csvToArray_strips_whitespace
    (csvString : jsstring) (record : gmap (list N) (list N))
    (name value : jsstring) :
  record ∈ Utils.csvToArray csvString ->
  record !! name = Some value ->
  edgeWhiteSpace name = false /\ edgeWhiteSpace value = false.
Proof.
  intros Hin Hlookup.
  pose proof (csvToArray_trimmed csvString) as Hall.
  rewrite Forall_forall in Hall. exact (Hall record Hin name value Hlookup).
Qed.

Lemma csvToArray_strips_whitespace_witness :
  Utils.csvToArray spaced_csv = [spaced_record] /\
  edgeWhiteSpace (js "Context") = false /\ edgeWhiteSpace (js "a b") = false.
Proof.
  split; [by_evaluation|].
  apply (csvToArray_strips_whitespace spaced_csv spaced_record).
  - replace (Utils.csvToArray spaced_csv) with [spaced_record]
      by (symmetry; by_evaluation).
    apply list_elem_of_singleton. reflexivity.
  - by_evaluation.
Defined.

(** * The remote store client *)

Section ClientFacts.

Context `{Platform}.

Import GitHubAPI.

(** An unconfigured client throws before anything reaches [fetch]. *)
Lemma makeRequest_not_configured endpoint method body (st : state) :
  isConfigured (this st) = false ->
  makeRequest endpoint method body st = (inl NotConfigured, st).
Proof. intros Hc. unfold makeRequest. rewrite Hc. reflexivity. Qed.

(** A response outside 200..299 other than 401 and 403 is thrown as the
    general API error, with the instance untouched. *)
Lemma makeRequest_rejected endpoint method body (st : state) r w :
  isConfigured (this st) = true ->
  fetch {| url := GITHUB_API_BASE ++ endpoint; request_method := method;
           body := body |} (world st) = (Responded r, w) ->
  ok r = false -> status r <> 401 -> status r <> 403 ->
  makeRequest endpoint method body st
  = (inl (ApiError (status r) (statusText r)),
     {| this := this st; world := w;
        requests := requests st
          ++ [{| url := GITHUB_API_BASE ++ endpoint;
                 request_method := method; body := body |}] |}).
Proof.
  intros Hc Hf Hok H401 H403. unfold makeRequest.
  rewrite Hc, Hf. cbn [negb]. rewrite Hok.
  destruct (N.eqb_spec (status r) 401); [congruence|].
  destruct (N.eqb_spec (status r) 403); [congruence|].
  reflexivity.
Qed.

(** A response outside 200..299 is thrown as the error of its status,
    with the instance untouched. *)
Lemma makeRequest_refused endpoint method body (st : state) r w :
  isConfigured (this st) = true ->
  fetch {| url := GITHUB_API_BASE ++ endpoint; request_method := method;
           body := body |} (world st) = (Responded r, w) ->
  ok r = false ->
  makeRequest endpoint method body st
  = (inl (refusal r),
     {| this := this st; world := w;
        requests := requests st
          ++ [{| url := GITHUB_API_BASE ++ endpoint;
                 request_method := method; body := body |}] |}).
Proof.
  intros Hc Hf Hok. unfold makeRequest, refusal.
  rewrite Hc, Hf. cbn [negb]. rewrite Hok.
  destruct (status r =? 401); [reflexivity|].
  destruct (status r =? 403); reflexivity.
Qed.

Lemma makeRequest_accepted endpoint method body (st : state) r w :
  isConfigured (this st) = true ->
  fetch {| url := GITHUB_API_BASE ++ endpoint; request_method := method;
           body := body |} (world st) = (Responded r, w) ->
  ok r = true ->
  makeRequest endpoint method body st
  = (inr (data r),
     {| this := this st; world := w;
        requests := requests st
          ++ [{| url := GITHUB_API_BASE ++ endpoint;
                 request_method := method; body := body |}] |}).
Proof.
  intros Hc Hf Hok. unfold makeRequest.
  rewrite Hc, Hf. cbn [negb]. rewrite Hok. reflexivity.
Qed.

(** The message of the API error carries the status code. *)
Lemma errorMessage_404 text :
  includes (errorMessage (ApiError 404 text)) (js "404") = true.
Proof.
  apply includes_spec. exists (js "GitHub API error: "), (js " " ++ text).
  reflexivity.
Qed.

(** The cached path of [getCSVContent]. *)
Lemma getCSVContent_fresh (st : state) :
  cacheIsFresh (this st) (now (world st)) = true ->
  getCSVContent false st
  = (atob (default [] (base64Content (this st))), st).
Proof.
  intros Hfresh. unfold getCSVContent, bind, getThis, dateNow, lift.
  cbn [negb andb]. rewrite Hfresh. reflexivity.
Qed.

End ClientFacts.

Section WriteFacts.

Context `{Platform}.

Import GitHubAPI.

(** A write the remote store accepts replaces the three cache fields. *)
Lemma updateCSVContent_accepted (st : state) content commitMessage
    encoded r w revision :
  isConfigured (this st) = true ->
  btoa content = inr encoded ->
  fetch (writeRequest (this st) encoded commitMessage) (world st)
  = (Responded r, w) ->
  ok r = true -> data r = WriteData revision ->
  updateCSVContent content commitMessage st
  = (inr true,
     {| this := withCache (Some encoded) (Some revision) (Some (now w))
                  (this st);
        world := w;
        requests := requests st
                    ++ [writeRequest (this st) encoded commitMessage] |}).
Proof.
  intros Hc Hb Hf Hok Hdata.
  unfold updateCSVContent, bind, getThis, lift. rewrite Hb.
  rewrite (makeRequest_accepted _ _ _ st r w Hc Hf Hok), Hdata.
  reflexivity.
Qed.

(** A write that fails inside [makeRequest] leaves the instance as it
    was. *)
Lemma updateCSVContent_request_failed (st st' : state) content
    commitMessage encoded e :
  btoa content = inr encoded ->
  makeRequest (contentsEndpoint (this st)) PUT
    (Some {| message := commitMessage; content := encoded;
             body_sha := sha (this st) |}) st = (inl e, st') ->
  updateCSVContent content commitMessage st = (inl e, st').
Proof.
  intros Hb Hm. unfold updateCSVContent, bind, getThis, lift.
  rewrite Hb, Hm. reflexivity.
Qed.

End WriteFacts.

(** * The claims about the remote store client *)

(** C2, as amended.  On a configured client, for content the transport
    encoding accepts, a write that the remote store answers with its
    conflict status 409 fails with the general API error carrying that
    status, and leaves the instance, with its cached content, revision
    token and fetch time, exactly as it was. *)
Theorem updateCSVContent_conflict `{Platform} (st : state)
    (content commitMessage encoded : jsstring) (r : response) (w : World) :
  GitHubAPI.isConfigured (this st) = true ->
  btoa content = inr encoded ->
  fetch (writeRequest (this st) encoded commitMessage) (world st)
  = (Responded r, w) ->
  status r = 409 ->
  GitHubAPI.updateCSVContent content commitMessage st
  = (inl (ApiError 409 (statusText r)),
     {| this := this st; world := w;
        requests := requests st
                    ++ [writeRequest (this st) encoded commitMessage] |}).
Proof.
  intros Hc Hb Hf Hs.
  apply (updateCSVContent_request_failed st _ content commitMessage encoded);
    [exact Hb|].
  rewrite <- Hs.
  apply (makeRequest_rejected _ _ _ st r w Hc Hf).
  - unfold ok. rewrite Hs. reflexivity.
  - rewrite Hs. discriminate.
  - rewrite Hs. discriminate.
Qed.

Section NotFoundFacts.

Context `{Platform}.

Import GitHubAPI.

(** The [catch] block of [getCSVContent] after a read answered 404. *)
Lemma getCSVContent_not_found (st : state) forceRefresh r1 w1 :
  negb forceRefresh && cacheIsFresh (this st) (now (world st)) = false ->
  isConfigured (this st) = true ->
  fetch (readRequest (this st)) (world st) = (Responded r1, w1) ->
  status r1 = 404 ->
  getCSVContent forceRefresh st
  = createInitialCSV
      {| this := this st; world := w1;
         requests := requests st ++ [readRequest (this st)] |}.
Proof.
  intros Hpath Hc Hread H404.
  unfold getCSVContent, bind, getThis, dateNow, tryCatch.
  rewrite Hpath.
  rewrite (makeRequest_rejected _ _ _ st r1 w1 Hc Hread);
    [| unfold ok; rewrite H404; reflexivity
     | rewrite H404; discriminate | rewrite H404; discriminate].
  unfold onReadError. rewrite H404, errorMessage_404. reflexivity.
Qed.

End NotFoundFacts.

(** C5, as amended.  When the remote store answers the read of the file
    with 404, the read goes on as the write of the canonical header line
    followed by a newline, with the revision token the client held.  When
    the remote store accepts that write, the read does not fail: it stores
    what it wrote in the cache and returns that text.  When the write
    fails, in whatever way, the read fails with the error of the write and
    in the state the write left; in particular a write the remote store
    answers outside 200..299 makes the read fail with the error of that
    status, the instance and its cache untouched. *)
Theorem getCSVContent_creates_missing_file `{Platform} (st : state)
    (forceRefresh : bool) (r1 : response) (w1 : World) :
  negb forceRefresh && GitHubAPI.cacheIsFresh (this st) (now (world st))
  = false ->
  GitHubAPI.isConfigured (this st) = true ->
  fetch (readRequest (this st)) (world st) = (Responded r1, w1) ->
  status r1 = 404 ->
  let afterRead :=
    {| this := this st; world := w1;
       requests := requests st ++ [readRequest (this st)] |} in
  (forall (encoded : jsstring) (r2 : response) (w2 : World)
          (revision : jsstring),
      btoa (HEADER_LINE ++ [NEWLINE]) = inr encoded ->
      fetch (writeRequest (this st) encoded (js "Initial CSV file creation"))
        w1 = (Responded r2, w2) ->
      ok r2 = true ->
      data r2 = WriteData revision ->
      GitHubAPI.getCSVContent forceRefresh st
      = (inr (HEADER_LINE ++ [NEWLINE]),
         {| this := withCache (Some encoded) (Some revision) (Some (now w2))
                      (this st);
            world := w2;
            requests :=
              requests st
              ++ [readRequest (this st);
                  writeRequest (this st) encoded
                    (js "Initial CSV file creation")] |})) /\
  (forall (e : error) (st' : state),
      GitHubAPI.updateCSVContent (HEADER_LINE ++ [NEWLINE])
        (js "Initial CSV file creation") afterRead = (inl e, st') ->
      GitHubAPI.getCSVContent forceRefresh st = (inl e, st')) /\
  (forall (encoded : jsstring) (r2 : response) (w2 : World),
      btoa (HEADER_LINE ++ [NEWLINE]) = inr encoded ->
      fetch (writeRequest (this st) encoded (js "Initial CSV file creation"))
        w1 = (Responded r2, w2) ->
      ok r2 = false ->
      GitHubAPI.getCSVContent forceRefresh st
      = (inl (refusal r2),
         {| this := this st; world := w2;
            requests :=
              requests st
              ++ [readRequest (this st);
                  writeRequest (this st) encoded
                    (js "Initial CSV file creation")] |})).
Proof.
  intros Hpath Hc Hread H404 afterRead.
  assert (Hinit : GitHubAPI.initialContent = HEADER_LINE ++ [NEWLINE])
    by by_evaluation.
  rewrite (getCSVContent_not_found st forceRefresh r1 w1 Hpath Hc Hread H404).
  fold afterRead.
  unfold GitHubAPI.createInitialCSV, bind, ret. rewrite Hinit.
  split; [|split].
  - intros encoded r2 w2 revision Hb Hwrite Hok Hdata.
    erewrite updateCSVContent_accepted;
      [| exact Hc | exact Hb | exact Hwrite | exact Hok | exact Hdata].
    unfold afterRead. cbn [this world requests].
    rewrite <- app_assoc. reflexivity.
  - intros e st' Hfail. rewrite Hfail. reflexivity.
  - intros encoded r2 w2 Hb Hwrite Hok.
    erewrite updateCSVContent_request_failed;
      [| exact Hb
       | apply (makeRequest_refused _ _ _ afterRead r2 w2 Hc Hwrite Hok)].
    unfold afterRead. cbn [this world requests].
    rewrite <- app_assoc. reflexivity.
Qed.

Section ReadFacts.

Context `{Platform}.

Import GitHubAPI.

(** After a write that returned, the cache holds the encoded content. *)
Lemma updateCSVContent_returned (st st1 : state) content commitMessage v :
  updateCSVContent content commitMessage st = (inr v, st1) ->
  exists encoded,
    btoa content = inr encoded /\ base64Content (this st1) = Some encoded.
Proof.
  unfold updateCSVContent, bind, getThis, lift.
  destruct (btoa content) as [e|encoded]; [discriminate|].
  destruct (makeRequest _ _ _ st) as [[e|d] st']; [discriminate|].
  intros Hrun. exists encoded. split; [reflexivity|].
  destruct d; cbn in Hrun; try discriminate;
    injection Hrun as _ <-; reflexivity.
Qed.

Lemma onReadError_returned (st st1 : state) e text :
  (forall encoded,
      btoa initialContent = inr encoded ->
      atob encoded = inr initialContent) ->
  onReadError e st = (inr text, st1) ->
  atob (default [] (base64Content (this st1))) = inr text.
Proof.
  intros Hcodec. unfold onReadError.
  destruct (includes (errorMessage e) (js "404")); [|discriminate].
  unfold createInitialCSV, bind, ret.
  destruct (updateCSVContent _ _ st) as [[e'|v] st2] eqn:Hwrite;
    [discriminate|].
  intros [= <- <-].
  destruct (updateCSVContent_returned _ _ _ _ _ Hwrite)
    as (encoded & Hb & ->).
  apply Hcodec, Hb.
Qed.

(** Whatever path a read that returned took, its text is the decoding
    of what the cache holds afterwards. *)
Lemma getCSVContent_returned (st st1 : state) forceRefresh text :
  (forall encoded,
      btoa initialContent = inr encoded ->
      atob encoded = inr initialContent) ->
  getCSVContent forceRefresh st = (inr text, st1) ->
  atob (default [] (base64Content (this st1))) = inr text.
Proof.
  intros Hcodec. unfold getCSVContent, bind, getThis, dateNow.
  destruct (negb forceRefresh && cacheIsFresh (this st) (now (world st))).
  { unfold lift. intros [= Hatob <-]. exact Hatob. }
  unfold tryCatch.
  destruct (makeRequest _ GET None st) as [[e|d] st'];
    [apply onReadError_returned, Hcodec|].
  destruct d as [type encoded revision|revision|];
    try (unfold throw; apply onReadError_returned, Hcodec).
  destruct (bool_decide (type = js "file"));
    [|unfold throw; apply onReadError_returned, Hcodec].
  unfold bind, setBase64Content, setSha, setLastFetch, setThis, dateNow,
    lift.
  cbn [this world requests base64Content withCache].
  destruct (atob encoded) as [e|decoded] eqn:Hatob;
    [apply onReadError_returned, Hcodec|].
  intros [= <- <-]. exact Hatob.
Qed.

End ReadFacts.

Lemma updateCSVContent_conflict_witness :
  @GitHubAPI.updateCSVContent samplePlatform headerText (js "update")
    (startAt cachedAPI (storeHolding headerFile (js "rev2") 2000))
  = (inl (ApiError 409 (js "Conflict")),
     @Build_state samplePlatform cachedAPI
       (storeHolding headerFile (js "rev2") 2000)
       [writeRequest cachedAPI headerFile (js "update")]).
Proof.
  apply (@updateCSVContent_conflict samplePlatform
           (startAt cachedAPI (storeHolding headerFile (js "rev2") 2000))
           headerText (js "update") headerFile
           {| status := 409; statusText := js "Conflict"; data := OtherData |}
           (storeHolding headerFile (js "rev2") 2000));
    vm_compute; reflexivity.
Defined.

(** C2, as stated, fails on the kind of the error.  A configured client
    reads the file at revision [rev1]; another writer then replaces the
    file, which is at [rev2] afterwards; the client writes with the token
    [rev1] it holds.  The remote store answers 409 and the write fails with
    the general API error, the one thrown for every status outside 200..299
    other than 401 and 403: not with a conflict error, which no statement
    of the client throws. *)
Lemma stale_write_fails_with_the_general_error :
  let read :=
    @GitHubAPI.getCSVContent samplePlatform false
      (startAt sampleAPI (storeHolding headerFile (js "rev1") 1000)) in
  let later :=
    @Build_state samplePlatform (this (snd read))
      (storeHolding otherFile (js "rev2") 2000) (requests (snd read)) in
  let write :=
    @GitHubAPI.updateCSVContent samplePlatform headerText (js "update")
      later in
  fst read = inr headerText /\
  sha (this later) = Some (js "rev1") /\
  RemoteStore.currentRevision (world later) = Some (js "rev2") /\
  fst write = inl (ApiError 409 (js "Conflict")) /\
  errorMessage (ApiError 409 (js "Conflict"))
  = js "GitHub API error: 409 Conflict" /\
  kindOf (ApiError 409 (js "Conflict")) = Some RemoteApiError /\
  ~ (exists e, fst write = inl e /\ kindOf e = Some ConflictError) /\
  this (snd write) = this later.
Proof.
  cbv zeta.
  split; [vm_compute; reflexivity|]. split; [vm_compute; reflexivity|].
  split; [vm_compute; reflexivity|].
  assert (Hwrite :
    fst (@GitHubAPI.updateCSVContent samplePlatform headerText (js "update")
           (@Build_state samplePlatform
              (this (snd (@GitHubAPI.getCSVContent samplePlatform false
                            (startAt sampleAPI
                               (storeHolding headerFile (js "rev1") 1000)))))
              (storeHolding otherFile (js "rev2") 2000)
              (requests (snd (@GitHubAPI.getCSVContent samplePlatform false
                                (startAt sampleAPI
                                   (storeHolding headerFile (js "rev1")
                                      1000)))))))
    = inl (ApiError 409 (js "Conflict"))) by (vm_compute; reflexivity).
  split; [exact Hwrite|]. split; [vm_compute; reflexivity|].
  split; [reflexivity|]. split; [|vm_compute; reflexivity].
  intros (e & He & Hk). rewrite Hwrite in He. injection He as <-.
  discriminate Hk.
Qed.

Lemma getCSVContent_creates_missing_file_witness :
  @GitHubAPI.getCSVContent samplePlatform false
    (startAt sampleAPI (storeWithoutFile 1000))
  = (inr (HEADER_LINE ++ [NEWLINE]),
     @Build_state samplePlatform
       (withCache (Some headerFile) (Some (js "rev1")) (Some 1000%Z) sampleAPI)
       (storeHolding headerFile (js "rev1") 1000)
       [readRequest sampleAPI;
        writeRequest sampleAPI headerFile (js "Initial CSV file creation")]).
Proof.
  refine (proj1 (@getCSVContent_creates_missing_file samplePlatform
                   (startAt sampleAPI (storeWithoutFile 1000)) false
                   {| status := 404; statusText := js "Not Found";
                      data := OtherData |}
                   (storeWithoutFile 1000) _ _ _ _)
            headerFile
            {| status := 200; statusText := js "OK";
               data := WriteData (js "rev1") |}
            (storeHolding headerFile (js "rev1") 1000) (js "rev1") _ _ _ _);
    vm_compute; reflexivity.
Defined.

(** C5, as stated, fails: when the repository itself is missing, the read
    is answered 404, the write of the initial file is answered 404 too, and
    the read fails with the error of that write. *)
Lemma getCSVContent_fails_when_write_is_rejected :
  @GitHubAPI.getCSVContent missingPlatform false
    (startMissing sampleAPI (storeWithoutFile 1000))
  = (inl (ApiError 404 (js "Not Found")),
     @Build_state missingPlatform sampleAPI (storeWithoutFile 1000)
       [readRequest sampleAPI;
        writeRequest sampleAPI headerFile (js "Initial CSV file creation")]).
Proof. vm_compute. reflexivity. Qed.

(** C4, as amended.  When the cached content is a non-empty string and the
    recorded fetch time is non-zero and less than the five-minute timeout
    ago, a read without [forceRefresh] returns the decoding of the cached
    content and leaves the state, with its list of requests, as it is.  In
    particular a second read made while the cache a first read left is in
    that condition returns the text of the first and makes no request. *)
Theorem getCSVContent_cached `{Platform} (st : state)
    (encoded : jsstring) (fetched : Z) :
  base64Content (this st) = Some encoded ->
  encoded <> [] ->
  lastFetch (this st) = Some fetched ->
  fetched <> 0%Z ->
  cacheTimeout (this st) = (5 * 60 * 1000)%Z ->
  (now (world st) - fetched < 5 * 60 * 1000)%Z ->
  GitHubAPI.getCSVContent false st = (atob encoded, st) /\
  forall (st0 st1 : state) (text : jsstring),
    (forall b, btoa GitHubAPI.initialContent = inr b ->
               atob b = inr GitHubAPI.initialContent) ->
    GitHubAPI.getCSVContent false st0 = (inr text, st1) ->
    this st1 = this st ->
    GitHubAPI.getCSVContent false st = (inr text, st).
Proof.
  intros Hcontent Hfull Hfetched Hnonzero Htimeout Hyoung.
  assert (Hfresh : GitHubAPI.cacheIsFresh (this st) (now (world st)) = true).
  { unfold GitHubAPI.cacheIsFresh. rewrite Hcontent, Hfetched, Htimeout.
    destruct encoded; [congruence|]. cbn [isEmpty negb andb].
    destruct (Z.eqb_spec fetched 0); [congruence|]. cbn [negb andb].
    apply Z.ltb_lt, Hyoung. }
  pose proof (getCSVContent_fresh st Hfresh) as Hread.
  rewrite Hcontent in Hread. cbn [default] in Hread.
  split; [exact Hread|].
  intros st0 st1 text Hcodec Hfirst Hsame.
  apply (getCSVContent_returned _ _ _ _ Hcodec) in Hfirst.
  rewrite Hsame, Hcontent in Hfirst. cbn [default] in Hfirst.
  rewrite Hread, Hfirst. reflexivity.
Qed.

Lemma getCSVContent_cached_witness :
  @GitHubAPI.getCSVContent samplePlatform false
    (startAt cachedAPI (storeHolding headerFile (js "rev2") 2000))
  = (inr headerText,
     startAt cachedAPI (storeHolding headerFile (js "rev2") 2000)).
Proof.
  refine (eq_trans
            (proj1 (@getCSVContent_cached samplePlatform
                      (startAt cachedAPI
                         (storeHolding headerFile (js "rev2") 2000))
                      headerFile 1000 _ _ _ _ _ _)) _);
    first [vm_compute; reflexivity | vm_compute; discriminate].
Defined.

(** C4, as stated, fails: the content of an empty remote file is cached
    as the empty string, which the guard of the cached path takes for no
    content.  A second read right after the first makes a second request. *)
Lemma second_read_of_empty_file_fetches_again :
  let first :=
    @GitHubAPI.getCSVContent samplePlatform false
      (startAt sampleAPI (storeHolding [] (js "rev1") 2000)) in
  let second := @GitHubAPI.getCSVContent samplePlatform false (snd first) in
  fst first = inr [] /\
  base64Content (this (snd first)) = Some [] /\
  lastFetch (this (snd first)) = Some 2000%Z /\
  requests (snd first) = [readRequest sampleAPI] /\
  fst second = inr [] /\
  requests (snd second) = [readRequest sampleAPI; readRequest sampleAPI].
Proof. vm_compute. repeat split; reflexivity. Qed.

(** * The query engine *)

Section SearchFacts.

Context `{Platform}.

Import Utils.

(** The predicate [filterArray] hands to [filter]. *)
Lemma filterArray_matching (array : list (gmap (list N) (list N)))
    (searchTerm : jsstring) (searchFields : list jsstring) :
  trim searchTerm <> [] ->
  exists keep : gmap (list N) (list N) -> bool,
    filterArray array searchTerm searchFields = List.filter keep array /\
    forall item,
      keep item = true <->
      exists field value pre post,
        field ∈ searchFields /\ item !! field = Some value /\
        value <> [] /\
        toLowerCase value = pre ++ trim (toLowerCase searchTerm) ++ post.
Proof.
  intros Hterm. unfold filterArray.
  assert (Hfull : isEmpty searchTerm || isEmpty (trim searchTerm) = false).
  { destruct searchTerm as [|c s]; [exfalso; apply Hterm; reflexivity|].
    destruct (trim (c :: s)); [congruence | reflexivity]. }
  rewrite Hfull. eexists. split; [reflexivity|].
  intros item. rewrite existsb_exists. split.
  - intros (field & Hin & Hmatch).
    destruct (item !! field) as [value|] eqn:Hvalue; [|discriminate].
    apply andb_true_iff in Hmatch as [Hne Hinc].
    apply includes_spec in Hinc as (pre & post & Hinc).
    exists field, value, pre, post.
    split; [apply list_elem_of_In, Hin|].
    split; [exact Hvalue|].
    split; [intros ->; discriminate | exact Hinc].
  - intros (field & value & pre & post & Hin & Hvalue & Hne & Hinc).
    exists field. split; [apply list_elem_of_In, Hin|].
    rewrite Hvalue. apply andb_true_iff. split.
    + destruct value; [congruence | reflexivity].
    + apply includes_spec. exists pre, post. exact Hinc.
Qed.

(** A term of whitespace only filters nothing. *)
Lemma filterArray_blank (array : list (gmap (list N) (list N)))
    (searchTerm : jsstring) (searchFields : list jsstring) :
  trim searchTerm = [] ->
  filterArray array searchTerm searchFields = array.
Proof.
  intros Hblank. unfold filterArray. rewrite Hblank.
  rewrite orb_true_r. reflexivity.
Qed.

(** On ASCII text a platform whose lower case agrees with [asciiLower]
    filters as the sample platform does. *)
Lemma filterArray_ascii (array : list (gmap (list N) (list N)))
    (searchTerm : jsstring) (searchFields : list jsstring) :
  (forall s, isAscii s = true -> toLowerCase s = map asciiLower s) ->
  isAscii searchTerm = true ->
  Forall (fun item =>
            Forall (fun field => isAscii (getOrEmpty item field) = true)
              searchFields) array ->
  filterArray array searchTerm searchFields
  = @filterArray samplePlatform array searchTerm searchFields.
Proof.
  intros Hlower Hterm Hall. unfold filterArray.
  destruct (isEmpty searchTerm || isEmpty (trim searchTerm));
    [reflexivity|].
  rewrite (Hlower _ Hterm). cbn [toLowerCase samplePlatform].
  induction Hall as [|item items Hitem _ IH]; [reflexivity|].
  cbn [List.filter]. rewrite IH. f_equal.
  assert (Hsame : forall fields,
    Forall (fun field => isAscii (getOrEmpty item field) = true) fields ->
    existsb
      (fun field =>
         match item !! field with
         | Some value =>
             negb (isEmpty value)
             && includes (toLowerCase value)
                  (trim (map asciiLower searchTerm))
         | None => false
         end) fields
    = existsb
        (fun field =>
           match item !! field with
           | Some value =>
               negb (isEmpty value)
               && includes (map asciiLower value)
                    (trim (map asciiLower searchTerm))
           | None => false
           end) fields).
  { induction 1 as [|field fields Hfield _ IHf]; [reflexivity|].
    cbn [existsb]. rewrite IHf. f_equal.
    unfold getOrEmpty in Hfield.
    destruct (item !! field) as [value|]; [|reflexivity].
    change (isAscii value = true) in Hfield.
    rewrite (Hlower _ Hfield). reflexivity. }
  rewrite (Hsame _ Hitem). reflexivity.
Qed.

End SearchFacts.

(** * The claims about the query engine *)

(** C8, as amended.  The search step trims the term before it compares.  For
    a non-empty term that is not all whitespace it keeps, in order, exactly
    the records in which one of the six fields is non-empty and contains the
    lower-cased, trimmed term in its lower-cased value; for a non-empty
    term of whitespace only it keeps every record.  On a platform whose
    lower case is the usual one on ASCII text, the term thing keeps the
    record of the decode example and the term zzz keeps nothing. *)
Theorem applySearch_keeps_matching_records `{Platform} :
  (forall s, isAscii s = true -> toLowerCase s = map asciiLower s) ->
  (forall (records : list (gmap (list N) (list N))) (term : jsstring),
     term <> [] ->
     (trim term = [] -> TrackRecordApp.applySearch term records = records) /\
     (trim term <> [] ->
      exists keep : gmap (list N) (list N) -> bool,
        TrackRecordApp.applySearch term records = List.filter keep records /\
        forall record,
          keep record = true <->
          exists field value pre post,
            field ∈ TrackRecordApp.searchFields /\
            record !! field = Some value /\ value <> [] /\
            toLowerCase value = pre ++ trim (toLowerCase term) ++ post)) /\
  TrackRecordApp.applySearch (js "thing") (Utils.csvToArray example_csv)
  = [example_record] /\
  TrackRecordApp.applySearch (js "zzz") (Utils.csvToArray example_csv) = [].
Proof.
  intros Hlower. split; [|split].
  - intros records term Hterm. unfold TrackRecordApp.applySearch.
    destruct term as [|c term]; [congruence|]. cbn [isEmpty]. split.
    + apply filterArray_blank.
    + apply filterArray_matching.
  - unfold TrackRecordApp.applySearch.
    change (if isEmpty (js "thing") then ?a else ?b) with b.
    rewrite (filterArray_ascii _ _ _ Hlower); [by_evaluation|reflexivity|].
    apply (bool_decide_eq_true_1 _). vm_compute. reflexivity.
  - unfold TrackRecordApp.applySearch.
    change (if isEmpty (js "zzz") then ?a else ?b) with b.
    rewrite (filterArray_ascii _ _ _ Hlower); [by_evaluation|reflexivity|].
    apply (bool_decide_eq_true_1 _). vm_compute. reflexivity.
Qed.

Lemma applySearch_keeps_matching_records_witness :
  @TrackRecordApp.applySearch samplePlatform (js "thing")
    (Utils.csvToArray example_csv) = [example_record] /\
  @TrackRecordApp.applySearch samplePlatform (js "zzz")
    (Utils.csvToArray example_csv) = [].
Proof.
  apply (@applySearch_keeps_matching_records samplePlatform).
  intros s _. reflexivity.
Defined.

(** C8, as stated, fails: the term thing followed by a space is non-empty,
    no field of the example record contains it, in any case of letters, and
    the search step keeps the record all the same. *)
Lemma search_term_is_trimmed_before_matching :
  js "thing " <> [] /\
  forallb
    (fun field =>
       negb (includes (map asciiLower (getOrEmpty example_record field))
               (map asciiLower (js "thing "))))
    TrackRecordApp.searchFields = true /\
  @TrackRecordApp.applySearch samplePlatform (js "thing ") [example_record]
  = [example_record].
Proof.
  split; [discriminate|]. split; [vm_compute; reflexivity | by_evaluation].
Qed.

(** C3, as amended.  A change of the page size sets the current page
    index to 1, whether or not the old index is still in range: the page
    shown afterwards is the first one at the new size, of the same
    filtered records. *)
Theorem currentPage_after_page_size_change (app : TrackRecordApp)
    (size : Z) :
  let app' := TrackRecordApp.onPageSizeChange size app in
  currentPage app' = 1%Z /\ pageSize app' = size /\
  filteredRecords app' = filteredRecords app /\
  TrackRecordApp.getPaginatedData app'
  = slice 0 size (filteredRecords app).
Proof. repeat split. Qed.

(** C3, as stated, fails in its second half: on page 2 of three records
    shown one per page, a change of the page size to 2, for which page 2
    is still in range, sets the page index to 1. *)
Lemma page_index_reset_on_page_size_change :
  currentPage browsingApp = 2%Z /\
  TrackRecordApp.totalPages
    (TrackRecordApp.onPageSizeChange 2 browsingApp) = 2%Z /\
  currentPage (TrackRecordApp.onPageSizeChange 2 browsingApp) = 1%Z.
Proof. repeat split. Qed.

(** * Appending and deleting an entry *)

(** C6 fails on the code for an entry with a newline in a field.  The
    encoder wraps the field in quotes, the decoder splits the text into
    lines before it looks at quotes, so the appended entry is read back as
    two records.  Starting from a stored file with the header line only,
    whose collection is empty, appending the entry and deleting index 0,
    the index at which it was appended, leaves a stored file that reads
    back as one record instead of none. *)
Theorem append_then_delete_leaves_a_record :
  let start := startAt sampleAPI (storeHolding headerFile (js "rev1") 1000) in
  let appended := @GitHubAPI.appendEntry samplePlatform multilineEntry start in
  let deleted :=
    @TrackRecordApp.deleteEntry samplePlatform 0 newTrackRecordApp
      (snd appended) in
  let reread := @GitHubAPI.getCSVContent samplePlatform true (snd deleted) in
  Utils.csvToArray headerText = [] /\
  fst appended = inr true /\
  Utils.csvToArray (Utils.arrayToCSV [multilineEntry])
  = [firstLineRecord; secondLineRecord] /\
  exists text,
    fst reread = inr text /\ Utils.csvToArray text = [secondLineRecord].
Proof.
  cbv zeta. split; [by_evaluation|]. split; [vm_compute; reflexivity|].
  split; [by_evaluation|].
  eexists. split; [vm_compute; reflexivity | by_evaluation].
Qed.

(** * Further properties of the record codec *)

Section TrimFacts.

Implicit Types (s t ws : jsstring) (c : N).

Lemma trimStart_blank ws s :
  allWhiteSpace ws = true -> trimStart (ws ++ s) = trimStart s.
Proof.
  induction ws as [|c ws IH]; [reflexivity|]. cbn [allWhiteSpace forallb].
  intros [Hc Hws]%andb_true_iff. cbn [app trimStart]. rewrite Hc.
  apply IH, Hws.
Qed.

(** A string is its blank front followed by what [trimStart] leaves. *)
Lemma trimStart_split s :
  exists ws, allWhiteSpace ws = true /\ s = ws ++ trimStart s.
Proof.
  induction s as [|c s (ws & Hws & IH)]; [exists []; split; reflexivity|].
  cbn [trimStart]. destruct (isWhiteSpace c) eqn:Hc.
  - exists (c :: ws). cbn [allWhiteSpace forallb]. rewrite Hc.
    split; [exact Hws|]. cbn [app]. rewrite <- IH. reflexivity.
  - exists []. split; reflexivity.
Qed.

Lemma allWhiteSpace_rev ws : allWhiteSpace (rev ws) = allWhiteSpace ws.
Proof.
  unfold allWhiteSpace. induction ws as [|c ws IH]; [reflexivity|].
  cbn [rev forallb]. rewrite forallb_app, IH. cbn [forallb].
  rewrite andb_true_r. apply andb_comm.
Qed.

Lemma trimEnd_blank s ws :
  allWhiteSpace ws = true -> trimEnd (s ++ ws) = trimEnd s.
Proof.
  intros Hws. unfold trimEnd. rewrite rev_app_distr, trimStart_blank;
    [reflexivity|]. rewrite allWhiteSpace_rev. exact Hws.
Qed.

(** A string is what [trimEnd] leaves followed by its blank end. *)
Lemma trimEnd_split s :
  exists ws, allWhiteSpace ws = true /\ s = trimEnd s ++ ws.
Proof.
  destruct (trimStart_split (rev s)) as (ws & Hws & Hs).
  exists (rev ws). rewrite allWhiteSpace_rev. split; [exact Hws|].
  unfold trimEnd. rewrite <- rev_app_distr, <- Hs, rev_involutive.
  reflexivity.
Qed.

Lemma trimStart_app_blank s ws :
  allWhiteSpace ws = true ->
  exists ws', allWhiteSpace ws' = true /\
              trimStart (s ++ ws) = trimStart s ++ ws'.
Proof.
  intros Hws. induction s as [|c s IH].
  - exists []. split; [reflexivity|].
    cbn [app trimStart]. rewrite <- (app_nil_r ws), trimStart_blank by exact Hws.
    reflexivity.
  - cbn [app trimStart]. destruct (isWhiteSpace c); [exact IH|].
    exists ws. split; [exact Hws | reflexivity].
Qed.

(** Blank code units at the end of a string do not show after [trim]. *)
Lemma trim_blank_end s ws :
  allWhiteSpace ws = true -> trim (s ++ ws) = trim s.
Proof.
  intros Hws. unfold trim.
  destruct (trimStart_app_blank s ws Hws) as (ws' & Hws' & ->).
  apply trimEnd_blank, Hws'.
Qed.

Lemma elem_rev c s : c ∈ rev s <-> c ∈ s.
Proof. rewrite !list_elem_of_In. symmetry. apply in_rev. Qed.

Lemma trimStart_elem c s : c ∈ trimStart s -> c ∈ s.
Proof.
  induction s as [|a s IH]; [auto|]. cbn [trimStart].
  destruct (isWhiteSpace a); [|auto]. intros H. right. apply IH, H.
Qed.

(** [trim] only removes code units. *)
Lemma trim_elem c s : c ∈ trim s -> c ∈ s.
Proof.
  unfold trim, trimEnd. intros H.
  apply trimStart_elem, elem_rev, trimStart_elem, elem_rev, H.
Qed.

Lemma trimStart_keeps c s :
  isWhiteSpace c = false -> c ∈ s -> c ∈ trimStart s.
Proof.
  intros Hc [pre [post ->]]%list_elem_of_split.
  rewrite (trimStart_app_solid pre c post Hc).
  apply elem_of_app. right. left.
Qed.

(** A code unit that is not whitespace survives [trim]. *)
Lemma trim_keeps c s : isWhiteSpace c = false -> c ∈ s -> c ∈ trim s.
Proof.
  intros Hc Hin. unfold trim, trimEnd.
  apply elem_rev, (trimStart_keeps c _ Hc).
  apply elem_rev, (trimStart_keeps c _ Hc), Hin.
Qed.

Lemma trim_nonempty c s :
  isWhiteSpace c = false -> c ∈ s -> isEmpty (trim s) = false.
Proof.
  intros Hc Hin. pose proof (trim_keeps c s Hc Hin) as H.
  destruct (trim s); [inversion H | reflexivity].
Qed.

(** [trimEnd] commutes with a front that it cannot reach. *)
Lemma trimEnd_app c s t :
  isWhiteSpace c = false -> c ∈ t -> trimEnd (s ++ t) = s ++ trimEnd t.
Proof.
  intros Hc [pre [post ->]]%list_elem_of_split.
  unfold trimEnd. rewrite !rev_app_distr. cbn [rev].
  rewrite <- !app_assoc. cbn [app].
  rewrite !(trimStart_app_solid (rev post) c _ Hc).
  rewrite !rev_app_distr. cbn [rev]. rewrite !rev_app_distr, !rev_involutive.
  cbn [rev app]. rewrite <- !app_assoc. reflexivity.
Qed.

End TrimFacts.

Section NormalForm.

Import Utils.

Implicit Types (row : gmap (list N) (list N)) (v line : jsstring).

Lemma doubleQuotes_elem c v : c <> QUOTE -> c ∈ doubleQuotes v <-> c ∈ v.
Proof.
  intros Hc. induction v as [|a v IH]; [reflexivity|]. cbn [doubleQuotes].
  destruct (N.eqb_spec a QUOTE) as [->|Ha].
  - rewrite !elem_of_cons, IH. tauto.
  - rewrite !elem_of_cons, IH. tauto.
Qed.

(** Doubled quotes switch [inQuotes] twice; everything else is appended
    to [current], commas too when inside quotes. *)
Lemma loop_doubled v rest result current inQuotes :
  inQuotes = true \/ COMMA ∉ v ->
  parseCSVLine_loop (doubleQuotes v ++ rest) result current inQuotes =
  parseCSVLine_loop rest result (current ++ removeQuotes v) inQuotes.
Proof.
  revert current. induction v as [|c v IH]; intros current Hc.
  - cbn. rewrite app_nil_r. reflexivity.
  - assert (Hc' : inQuotes = true \/ COMMA ∉ v).
    { destruct Hc as [Hc|Hc]; [left; exact Hc | right].
      apply not_elem_of_cons in Hc as [_ Hc]. exact Hc. }
    cbn [doubleQuotes removeQuotes List.filter].
    destruct (N.eqb_spec c QUOTE) as [->|Hq].
    + cbn [app parseCSVLine_loop negb]. rewrite N.eqb_refl, negb_involutive.
      apply IH, Hc'.
    + cbn [app parseCSVLine_loop negb].
      destruct (N.eqb_spec c QUOTE) as [|_]; [congruence|].
      assert (E : (c =? COMMA) && negb inQuotes = false).
      { destruct Hc as [->|Hc]; [apply andb_false_r|].
        apply not_elem_of_cons in Hc as [Hc _].
        destruct (N.eqb_spec c COMMA); [congruence | reflexivity]. }
      rewrite E, (IH _ Hc'), <- app_assoc. reflexivity.
Qed.

(** Whatever the value, its encoding is read back as the value without its
    quotes. *)
Lemma loop_encoded_any row header rest result current :
  parseCSVLine_loop (encodeValue row header ++ rest) result current false =
  parseCSVLine_loop rest result
    (current ++ removeQuotes (getOrEmpty row header)) false.
Proof.
  unfold encodeValue.
  destruct (includes (doubleQuotes (getOrEmpty row header)) [COMMA]) eqn:Ec.
  - cbn [orb]. rewrite <- !app_assoc. cbn [app parseCSVLine_loop].
    change (QUOTE =? QUOTE) with true. cbv iota. cbn [negb].
    rewrite loop_doubled by (left; reflexivity).
    cbn [app parseCSVLine_loop]. reflexivity.
  - assert (Hc : COMMA ∉ getOrEmpty row header).
    { apply includes_char_false in Ec. intros Hin. apply Ec.
      apply doubleQuotes_elem; [discriminate | exact Hin]. }
    destruct (includes (doubleQuotes (getOrEmpty row header)) [NEWLINE]).
    + cbn [orb]. rewrite <- !app_assoc. cbn [app parseCSVLine_loop].
      change (QUOTE =? QUOTE) with true. cbv iota. cbn [negb].
      rewrite loop_doubled by (left; reflexivity).
      cbn [app parseCSVLine_loop]. reflexivity.
    + cbn [orb]. apply loop_doubled. right. exact Hc.
Qed.

Lemma parse_joined_any row (headers : list jsstring) result :
  headers <> [] ->
  parseCSVLine_loop (join [COMMA] (map (encodeValue row) headers))
    result [] false
  = result ++ map (fun header => normalValue (getOrEmpty row header)) headers.
Proof.
  intros Hne. revert result.
  induction headers as [|h hs IH]; intros result; [congruence|].
  destruct hs as [|h' hs'].
  - cbn [map join]. rewrite <- (app_nil_r (encodeValue row h)).
    rewrite loop_encoded_any. reflexivity.
  - change (join [COMMA] (map (encodeValue row) (h :: h' :: hs')))
      with (encodeValue row h ++
            COMMA :: join [COMMA] (map (encodeValue row) (h' :: hs'))).
    rewrite loop_encoded_any.
    cbn [parseCSVLine_loop app]. change (COMMA =? QUOTE) with false.
    rewrite N.eqb_refl. cbn [andb negb].
    rewrite IH by discriminate.
    rewrite <- app_assoc. reflexivity.
Qed.

(** Blank code units at the end of a line do not change what is parsed. *)
Lemma loop_blank_end line ws result current inQuotes :
  allWhiteSpace ws = true ->
  parseCSVLine_loop (line ++ ws) result current inQuotes
  = parseCSVLine_loop line result current inQuotes.
Proof.
  intros Hws. revert result current inQuotes.
  induction line as [|c line IH]; intros result current inQuotes.
  - cbn [app]. revert current.
    induction ws as [|w ws IHw]; intros current; [reflexivity|].
    cbn [allWhiteSpace forallb] in Hws.
    apply andb_true_iff in Hws as [Hw Hws].
    cbn [parseCSVLine_loop].
    assert (Hq : (w =? QUOTE) = false).
    { destruct (N.eqb_spec w QUOTE) as [->|]; [discriminate Hw|reflexivity]. }
    assert (Hc : (w =? COMMA) = false).
    { destruct (N.eqb_spec w COMMA) as [->|]; [discriminate Hw|reflexivity]. }
    rewrite Hq, Hc. cbn [andb]. rewrite (IHw Hws). cbn [parseCSVLine_loop].
    f_equal. f_equal. apply (trim_blank_end current [w]).
    cbn [allWhiteSpace forallb]. rewrite Hw. reflexivity.
  - cbn [app parseCSVLine_loop]. rewrite !IH. reflexivity.
Qed.

Lemma parseCSVLine_trimEnd line :
  parseCSVLine (trimEnd line) = parseCSVLine line.
Proof.
  destruct (trimEnd_split line) as (ws & Hws & Hline).
  unfold parseCSVLine. rewrite Hline at 2.
  symmetry. apply loop_blank_end, Hws.
Qed.

Lemma trim_trimEnd line : trim (trimEnd line) = trim line.
Proof.
  destruct (trimEnd_split line) as (ws & Hws & Hline).
  rewrite Hline at 2. symmetry. apply trim_blank_end, Hws.
Qed.

(** The loop of [csvToArray] sees a line only up to its blank end. *)
Lemma csvToArray_loop_trimEnd headers (lines : list jsstring) result :
  csvToArray_loop headers (map trimEnd lines) result
  = csvToArray_loop headers lines result.
Proof.
  revert result. induction lines as [|line lines IH]; intros result;
    [reflexivity|].
  cbn [map csvToArray_loop]. cbv zeta.
  rewrite trim_trimEnd, parseCSVLine_trimEnd, !IH. reflexivity.
Qed.

End NormalForm.

Section NormalFormText.

Import Utils.

Implicit Types (row : gmap (list N) (list N)) (v line : jsstring).

Lemma trimEnd_elem c line : c ∈ trimEnd line -> c ∈ line.
Proof. unfold trimEnd. intros H. apply elem_rev, trimStart_elem, elem_rev, H. Qed.

Lemma trimEnd_keeps c line :
  isWhiteSpace c = false -> c ∈ line -> c ∈ trimEnd line.
Proof.
  intros Hc Hin. unfold trimEnd.
  apply elem_rev, (trimStart_keeps c _ Hc), elem_rev, Hin.
Qed.

Lemma trimEnd_trimEnd line : trimEnd (trimEnd line) = trimEnd line.
Proof. apply trimEnd_id, trimEnd_tail. Qed.

(** Trimming the end of a text of lines that each hold a comma trims the
    end of its last line and nothing else. *)
Lemma trimEnd_join (lines : list jsstring) :
  lines <> [] ->
  Forall (fun line => COMMA ∈ line) lines ->
  exists lines',
    trimEnd (join [NEWLINE] lines) = join [NEWLINE] lines' /\
    map trimEnd lines' = map trimEnd lines /\
    hd [] (map trimEnd lines') = trimEnd (hd [] lines') /\
    length lines' = length lines /\
    (length lines >= 2 -> hd [] lines' = hd [] lines)%nat /\
    Forall (fun line' => exists line, line ∈ lines /\
                           forall c, c ∈ line' -> c ∈ line) lines'.
Proof.
  intros Hne Hall. induction Hall as [|x xs Hx Hxs IH]; [congruence|].
  destruct xs as [|y ys].
  - exists [trimEnd x]. cbn [join map hd length].
    rewrite trimEnd_trimEnd. repeat split; try reflexivity; [lia|].
    constructor; [|constructor]. exists x. split; [left|].
    intros c. apply trimEnd_elem.
  - destruct (IH ltac:(discriminate))
      as (lines' & Hjoin & Hmap & _ & Hlen & _ & Hsub).
    exists (x :: lines').
    change (join [NEWLINE] (x :: y :: ys))
      with (x ++ ([NEWLINE] ++ join [NEWLINE] (y :: ys))).
    assert (Hcomma : COMMA ∈ join [NEWLINE] (y :: ys)).
    { apply Forall_cons in Hxs as [Hy _].
      destruct ys; [exact Hy|].
      change (join [NEWLINE] (y :: l :: ys))
        with (y ++ [NEWLINE] ++ join [NEWLINE] (l :: ys)).
      apply elem_of_app. left. exact Hy. }
    rewrite app_assoc, (trimEnd_app COMMA _ _ eq_refl Hcomma), Hjoin.
    destruct lines' as [|l' ls']; [discriminate Hlen|].
    rewrite <- app_assoc. cbn [map hd length].
    repeat split; try reflexivity.
    + f_equal. exact Hmap.
    + cbn [length] in Hlen. lia.
    + constructor.
      * exists x. split; [left | auto].
      * eapply Forall_impl; [exact Hsub|].
        intros line' (line & Hin & Hsubset). exists line.
        split; [right; exact Hin | exact Hsubset].
Qed.

Lemma encodeValue_newline row header :
  NEWLINE ∉ getOrEmpty row header -> NEWLINE ∉ encodeValue row header.
Proof.
  intros Hn. unfold encodeValue.
  assert (Hd : NEWLINE ∉ doubleQuotes (getOrEmpty row header)).
  { intros H. apply Hn.
    apply (proj1 (doubleQuotes_elem NEWLINE _ ltac:(discriminate)) H). }
  destruct (includes _ [COMMA] || includes _ [NEWLINE]); [|exact Hd].
  rewrite !elem_of_app, !list_elem_of_singleton.
  intros [E|[E|E]]; [discriminate E | exact (Hd E) | discriminate E].
Qed.

Lemma encodeRow_comma row : COMMA ∈ encodeRow row.
Proof.
  unfold encodeRow, APP_CONFIG.CSV_HEADERS. cbn [map].
  match goal with
  | |- COMMA ∈ join [COMMA] (?x :: ?y :: ?rest) =>
      change (join [COMMA] (x :: y :: rest))
        with (x ++ COMMA :: join [COMMA] (y :: rest))
  end.
  apply elem_of_app. right. left.
Qed.

Lemma encodeRow_newline row :
  newlineFree row = true -> NEWLINE ∉ encodeRow row.
Proof.
  unfold newlineFree. rewrite forallb_forall. intros Hall.
  unfold encodeRow. apply join_not_elem.
  - rewrite list_elem_of_singleton. discriminate.
  - apply Forall_fmap, Forall_forall. intros h Hh.
    apply encodeValue_newline.
    apply (bool_decide_eq_true_1 _), Hall, list_elem_of_In, Hh.
Qed.

Lemma keys_of_pairs {A} (f : jsstring -> A) (l : list jsstring) :
  (map (fun header => (header, f header)) l).*1 = l.
Proof. induction l as [|h l IH]; [reflexivity|]. cbn. rewrite IH. reflexivity. Qed.

(** The object [csvToArray] builds from the values of an encoded row. *)
Lemma assignFields_normal row :
  assignFields APP_CONFIG.CSV_HEADERS 0
    (map (fun header => normalValue (getOrEmpty row header))
       APP_CONFIG.CSV_HEADERS) ∅
  = normalRecord row.
Proof.
  assert (Hnd : NoDup APP_CONFIG.CSV_HEADERS) by by_evaluation.
  assert (Hp : js "__proto__" ∉ APP_CONFIG.CSV_HEADERS) by by_evaluation.
  unfold normalRecord. apply map_eq. intros key.
  destruct (decide (key ∈ APP_CONFIG.CSV_HEADERS)) as [Hin|Hout].
  - destruct (proj1 (list_elem_of_lookup _ _) Hin) as [j Hj].
    rewrite (assignFields_at _ 0 _ _ j key Hnd Hp Hj).
    change (0 + j)%nat with j.
    rewrite (nth_lookup_Some _ j [] (normalValue (getOrEmpty row key)))
      by (rewrite list_lookup_fmap, Hj; reflexivity).
    symmetry. apply elem_of_list_to_map.
    + rewrite keys_of_pairs. exact Hnd.
    + apply list_elem_of_fmap. exists key. split; [reflexivity | exact Hin].
  - rewrite assignFields_other by exact Hout. rewrite lookup_empty.
    symmetry. apply not_elem_of_list_to_map.
    rewrite keys_of_pairs. exact Hout.
Qed.

Lemma csvToArray_loop_normal (data : list (gmap (list N) (list N))) :
  csvToArray_loop APP_CONFIG.CSV_HEADERS (map encodeRow data) []
  = map normalRecord data.
Proof.
  induction data as [|row rows IH]; [reflexivity|].
  cbn [map csvToArray_loop]. cbv zeta.
  rewrite (trim_nonempty COMMA _ eq_refl (encodeRow_comma row)).
  assert (Hparse : parseCSVLine (encodeRow row)
                   = map (fun header => normalValue (getOrEmpty row header))
                       APP_CONFIG.CSV_HEADERS).
  { unfold parseCSVLine, encodeRow.
    rewrite parse_joined_any by discriminate. reflexivity. }
  rewrite Hparse.
  rewrite assignFields_normal, csvToArray_loop_app, IH. reflexivity.
Qed.

(** Decoding after encoding, for values without newlines: every record
    comes back with exactly the canonical fields, each value without its
    double quotes and trimmed. *)
Lemma roundtrip_normal (data : list (gmap (list N) (list N))) :
  forallb newlineFree data = true ->
  csvToArray (arrayToCSV data) = map normalRecord data.
Proof.
  intros Hfree. destruct data as [|row rows]; [by_evaluation|].
  assert (Hall : Forall (fun r => newlineFree r = true) (row :: rows)).
  { apply Forall_forall. intros r Hr.
    apply (proj1 (forallb_forall _ _) Hfree), list_elem_of_In, Hr. }
  set (header := join [COMMA] APP_CONFIG.CSV_HEADERS).
  set (lines := header :: map encodeRow (row :: rows)).
  assert (Htext : arrayToCSV (row :: rows) = join [NEWLINE] lines)
    by reflexivity.
  assert (Hcommas : Forall (fun line => COMMA ∈ line) lines).
  { constructor; [by_evaluation|].
    apply Forall_fmap, Forall_forall. intros r _. apply encodeRow_comma. }
  assert (Hnewlines : Forall (fun line => NEWLINE ∉ line) lines).
  { constructor; [by_evaluation|].
    apply Forall_fmap. eapply Forall_impl; [exact Hall|].
    intros r Hr. apply encodeRow_newline, Hr. }
  destruct (trimEnd_join lines ltac:(discriminate) Hcommas)
    as (lines' & Hjoin & Hmap & _ & Hlen & Hhd & Hsub).
  assert (Hstart : trimStart (join [NEWLINE] lines) = join [NEWLINE] lines).
  { apply trimStart_id. reflexivity. }
  assert (Htrim : trim (join [NEWLINE] lines) = join [NEWLINE] lines')
    by (unfold trim; rewrite Hstart; exact Hjoin).
  unfold csvToArray. rewrite Htext, Htrim.
  assert (Hfull1 : isEmpty (join [NEWLINE] lines) = false).
  { destruct (join [NEWLINE] lines) eqn:E; [|reflexivity].
    exfalso. revert E. apply join_two_nonempty. }
  destruct lines' as [|first [|second rest]];
    [discriminate Hlen | discriminate Hlen |].
  assert (Hfull2 : isEmpty (join [NEWLINE] (first :: second :: rest)) = false).
  { destruct (join [NEWLINE] (first :: second :: rest)) eqn:E; [|reflexivity].
    exfalso. revert E. apply join_two_nonempty. }
  rewrite Hfull1, Hfull2. cbn [orb].
  rewrite split_join; [|discriminate|].
  - cbn [hd tl]. cbn [hd] in Hhd.
    rewrite (Hhd ltac:(cbn; lia)). change (hd [] lines) with header.
    assert (Hheaders :
      map trim (split COMMA header) = APP_CONFIG.CSV_HEADERS) by by_evaluation.
    rewrite Hheaders.
    assert (Htail : map trimEnd (second :: rest)
                    = map trimEnd (map encodeRow (row :: rows)))
      by exact (f_equal (@tl _) Hmap).
    rewrite <- csvToArray_loop_trimEnd, Htail, csvToArray_loop_trimEnd.
    apply (csvToArray_loop_normal (row :: rows)).
  - eapply Forall_impl; [exact Hsub|].
    intros line' (line & Hin & Hsubset) Hn.
    rewrite Forall_forall in Hnewlines.
    exact (Hnewlines line Hin (Hsubset _ Hn)).
Qed.

End NormalFormText.

Section DecoderFacts.

Import Utils.

Implicit Types (row obj : gmap (list N) (list N)) (v line : jsstring).

Lemma split_nonempty sep line : split sep line <> [].
Proof.
  destruct line as [|c line]; [discriminate|]. cbn [split].
  destruct (c =? sep); [discriminate|]. destruct (split sep line); discriminate.
Qed.

(** The parts of a split hold code units of the string, never the
    separator. *)
Lemma split_parts sep line part c :
  part ∈ split sep line -> c ∈ part -> c ∈ line /\ c <> sep.
Proof.
  revert part. induction line as [|a line IH]; intros part Hpart Hc.
  - cbn [split] in Hpart. apply list_elem_of_singleton in Hpart as ->.
    inversion Hc.
  - cbn [split] in Hpart. destruct (N.eqb_spec a sep) as [->|Ha].
    + apply elem_of_cons in Hpart as [->|Hpart]; [inversion Hc|].
      destruct (IH part Hpart Hc) as [H1 H2]. split; [right; exact H1|exact H2].
    + destruct (split sep line) as [|x xs] eqn:E.
      * apply list_elem_of_singleton in Hpart as ->.
        apply list_elem_of_singleton in Hc as ->. split; [left | exact Ha].
      * apply elem_of_cons in Hpart as [->|Hpart].
        -- apply elem_of_cons in Hc as [->|Hc]; [split; [left | exact Ha]|].
           destruct (IH x ltac:(left) Hc) as [H1 H2].
           split; [right; exact H1 | exact H2].
        -- destruct (IH part ltac:(right; exact Hpart) Hc) as [H1 H2].
           split; [right; exact H1 | exact H2].
Qed.

(** A line without quotes is split at its commas and each part trimmed. *)
Lemma loop_without_quotes line result current :
  QUOTE ∉ line ->
  parseCSVLine_loop line result current false
  = result ++ trim (current ++ hd [] (split COMMA line))
              :: map trim (tl (split COMMA line)).
Proof.
  revert result current.
  induction line as [|c line IH]; intros result current Hq.
  { cbn [parseCSVLine_loop split hd tl map]. rewrite app_nil_r. reflexivity. }
  apply not_elem_of_cons in Hq as [Hc Hq].
  cbn [parseCSVLine_loop split].
  destruct (N.eqb_spec c QUOTE) as [|_]; [congruence|].
  destruct (N.eqb_spec c COMMA) as [->|Hcomma]; cbn [andb negb].
  - rewrite (IH _ _ Hq). cbn [hd tl app]. rewrite app_nil_r, <- app_assoc.
    cbn [app]. pose proof (split_nonempty COMMA line) as Hne.
    destruct (split COMMA line); [congruence | reflexivity].
  - rewrite (IH _ _ Hq). pose proof (split_nonempty COMMA line) as Hne.
    destruct (split COMMA line); [congruence|].
    cbn [hd tl]. rewrite <- app_assoc. reflexivity.
Qed.

(** Every code unit of a parsed value comes from the line, or from
    [current], and no code unit taken from the line is a quote. *)
Lemma loop_chars line result current inQuotes v c :
  v ∈ parseCSVLine_loop line result current inQuotes -> c ∈ v ->
  v ∈ result \/ c ∈ current \/ (c ∈ line /\ c <> QUOTE).
Proof.
  revert result current inQuotes.
  induction line as [|a line IH]; intros result current inQuotes Hv Hc.
  - cbn [parseCSVLine_loop] in Hv. apply elem_of_app in Hv as [Hv|Hv].
    + left. exact Hv.
    + apply list_elem_of_singleton in Hv as ->. right. left.
      apply trim_elem, Hc.
  - cbn [parseCSVLine_loop] in Hv.
    destruct (N.eqb_spec a QUOTE) as [->|Ha].
    + destruct (IH _ _ _ Hv Hc) as [H|[H|[H1 H2]]]; auto.
      right. right. split; [right; exact H1 | exact H2].
    + destruct ((a =? COMMA) && negb inQuotes).
      * destruct (IH _ _ _ Hv Hc) as [H|[H|[H1 H2]]].
        -- apply elem_of_app in H as [H|H]; [left; exact H|].
           apply list_elem_of_singleton in H as ->. right. left.
           apply trim_elem, Hc.
        -- inversion H.
        -- right. right. split; [right; exact H1 | exact H2].
      * destruct (IH _ _ _ Hv Hc) as [H|[H|[H1 H2]]]; auto.
        -- apply elem_of_app in H as [H|H]; auto.
           apply list_elem_of_singleton in H as ->.
           right. right. split; [left | exact Ha].
        -- right. right. split; [right; exact H1 | exact H2].
Qed.

Lemma parseCSVLine_chars line v c :
  v ∈ parseCSVLine line -> c ∈ v -> c ∈ line /\ c <> QUOTE.
Proof.
  intros Hv Hc. destruct (loop_chars _ _ _ _ _ _ Hv Hc) as [H|[H|H]];
    [inversion H | inversion H | exact H].
Qed.

Lemma nth_elem index (values : list jsstring) :
  nth index values [] = [] \/ nth index values [] ∈ values.
Proof.
  revert index. induction values as [|v vs IH]; intros [|index]; cbn [nth];
    auto.
  - right. left.
  - destruct (IH index) as [H|H]; [left; exact H | right; right; exact H].
Qed.

(** What [headers.forEach] assigns: every field of the object it leaves
    was there before, or is a header holding a parsed value or the empty
    string. *)
Lemma assignFields_lookup (headers : list jsstring) index values obj
    name value :
  assignFields headers index values obj !! name = Some value ->
  obj !! name = Some value \/
  (name ∈ headers /\ (value = [] \/ value ∈ values)).
Proof.
  revert index obj. induction headers as [|h hs IH]; intros index obj H;
    [left; exact H|].
  cbn [assignFields] in H. destruct (IH _ _ H) as [Hobj|[Hin Hval]].
  - unfold setProperty in Hobj. case_decide; [left; exact Hobj|].
    rewrite lookup_insert in Hobj. case_decide.
    + injection Hobj as <-. subst. right. split; [left|]. apply nth_elem.
    + left. exact Hobj.
  - right. split; [right; exact Hin | exact Hval].
Qed.

(** The fields of the decoded records, traced back to the text. *)
Lemma csvToArray_loop_fields headers (lines : list jsstring) result record
    name value :
  record ∈ csvToArray_loop headers lines result ->
  record !! name = Some value ->
  record ∈ result \/
  (name ∈ headers /\
   (value = [] \/ exists line, line ∈ lines /\ value ∈ parseCSVLine line)).
Proof.
  revert result. induction lines as [|line lines IH]; intros result Hin Hl.
  - left. exact Hin.
  - cbn [csvToArray_loop] in Hin. cbv zeta in Hin.
    destruct (isEmpty (trim line)).
    + destruct (IH _ Hin Hl) as [H|(Hn & [Hv|(l & Hl1 & Hl2)])]; auto.
      right. split; [exact Hn|]. right. exists l. split; [right|]; assumption.
    + destruct (IH _ Hin Hl) as [H|(Hn & [Hv|(l & Hl1 & Hl2)])]; auto.
      * apply elem_of_app in H as [H|H]; [left; exact H|].
        apply list_elem_of_singleton in H. subst record.
        destruct (assignFields_lookup _ _ _ _ _ _ Hl) as [H|[Hn [Hv|Hv]]].
        -- rewrite lookup_empty in H. discriminate.
        -- right. split; [exact Hn | left; exact Hv].
        -- right. split; [exact Hn|]. right. exists line. split; [left|exact Hv].
      * right. split; [exact Hn|]. right. exists l. split; [right|]; assumption.
Qed.

End DecoderFacts.

Section DecoderShape.

Import Utils.

Implicit Types (row obj : gmap (list N) (list N)) (v line : jsstring).

Lemma trim_empty_text csvString :
  isEmpty csvString || isEmpty (trim csvString) = isEmpty (trim csvString).
Proof. destruct csvString; reflexivity. Qed.

(** [csvToArray] in terms of the header names and the data lines. *)
Lemma csvToArray_unfold csvString :
  csvToArray csvString
  = if isEmpty (trim csvString) then []
    else csvToArray_loop (headerNames csvString) (dataLines csvString) [].
Proof. unfold csvToArray. rewrite trim_empty_text. reflexivity. Qed.

Lemma assignFields_dom (headers : list jsstring) index values obj :
  dom (assignFields headers index values obj)
  = list_to_set (filter (fun header => header <> js "__proto__") headers)
    ∪ dom obj.
Proof.
  revert index obj. induction headers as [|h hs IH]; intros index obj.
  - rewrite filter_nil, list_to_set_nil, (left_id_L ∅ (∪)). reflexivity.
  - cbn [assignFields]. rewrite IH. unfold setProperty.
    rewrite filter_cons. destruct (decide (h = js "__proto__")) as [->|Hp].
    + rewrite decide_False by auto. reflexivity.
    + rewrite decide_True by exact Hp.
      rewrite dom_insert_L, list_to_set_cons.
      rewrite (assoc_L (∪)), (comm_L (∪) _ {[h]}). reflexivity.
Qed.

Lemma csvToArray_loop_dom headers (lines : list jsstring) result record :
  record ∈ csvToArray_loop headers lines result ->
  record ∈ result \/
  dom record
  = list_to_set (filter (fun header => header <> js "__proto__") headers).
Proof.
  revert result. induction lines as [|line lines IH]; intros result Hin.
  - left. exact Hin.
  - cbn [csvToArray_loop] in Hin. cbv zeta in Hin.
    destruct (isEmpty (trim line)); [exact (IH _ Hin)|].
    destruct (IH _ Hin) as [H|H]; [|right; exact H].
    apply elem_of_app in H as [H|H]; [left; exact H|].
    apply list_elem_of_singleton in H as ->. right.
    rewrite assignFields_dom, dom_empty_L. apply (right_id_L ∅ (∪)).
Qed.

Lemma csvToArray_loop_length headers (lines : list jsstring) result :
  length (csvToArray_loop headers lines result)
  = (length result
     + length (List.filter (fun line => negb (isEmpty (trim line))) lines))%nat.
Proof.
  revert result. induction lines as [|line lines IH]; intros result.
  - cbn. lia.
  - cbn [csvToArray_loop List.filter]. cbv zeta.
    destruct (isEmpty (trim line)); cbn [negb].
    + apply IH.
    + rewrite IH, length_app. cbn [length]. lia.
Qed.

(** No decoded value holds a double quote or a newline. *)
Lemma csvToArray_values csvString record name value :
  record ∈ csvToArray csvString -> record !! name = Some value ->
  (QUOTE ∉ value) /\ (NEWLINE ∉ value).
Proof.
  rewrite csvToArray_unfold.
  destruct (isEmpty (trim csvString)); [intros H; inversion H|].
  intros Hin Hl.
  destruct (csvToArray_loop_fields _ _ _ _ _ _ Hin Hl)
    as [H|(_ & [->|(line & Hline & Hv)])].
  - inversion H.
  - split; apply not_elem_of_nil.
  - assert (Hfree : forall c, c ∈ line -> c <> NEWLINE).
    { intros c Hc. unfold dataLines in Hline.
      assert (Hl' : line ∈ split NEWLINE (trim csvString)).
      { destruct (split NEWLINE (trim csvString)); [inversion Hline|].
        right. exact Hline. }
      apply (split_parts _ _ _ _ Hl' Hc). }
    split; intros Hc; destruct (parseCSVLine_chars _ _ _ Hv Hc) as [H1 H2].
    + congruence.
    + exact (Hfree _ H1 eq_refl).
Qed.

(** The records decoded from a text with a canonical header survive
    encoding and decoding. *)
Lemma csvToArray_safe csvString :
  canonicalHeader csvString ->
  Forall (fun row => roundTripSafe row = true) (csvToArray csvString).
Proof.
  intros Hcanon. apply Forall_forall. intros record Hin.
  unfold roundTripSafe. apply andb_true_iff. split.
  - unfold canonicalRecord. apply bool_decide_eq_true_2.
    rewrite csvToArray_unfold in Hin.
    destruct (isEmpty (trim csvString)); [inversion Hin|].
    destruct (csvToArray_loop_dom _ _ _ _ Hin) as [H|H]; [inversion H|].
    rewrite H, <- Hcanon. unfold canonicalHeader in Hcanon.
    apply set_eq. intros h. rewrite !elem_of_list_to_set, list_elem_of_filter.
    split; [tauto|]. intros Hh. split; [|exact Hh]. intros ->.
    assert (Hp : js "__proto__" ∈ (list_to_set (headerNames csvString)
                                    : gset (list N)))
      by (apply elem_of_list_to_set, Hh).
    rewrite Hcanon in Hp. revert Hp. by_evaluation.
  - apply forallb_forall. intros h _. unfold getOrEmpty.
    destruct (record !! h) as [v|] eqn:Hv; [|reflexivity].
    cbn [default]. change (safeValue v = true).
    destruct (csvToArray_values _ _ _ _ Hin Hv) as [Hq Hn].
    pose proof (csvToArray_trimmed csvString) as Ht.
    rewrite Forall_forall in Ht. destruct (Ht record Hin h v Hv) as [_ He].
    unfold safeValue. rewrite He.
    rewrite !bool_decide_eq_true_2 by assumption. reflexivity.
Qed.

End DecoderShape.

(** * More about the record codec *)

(** X1.  Decoding after encoding, for every collection whose canonical
    field values hold no newline: each record comes back with exactly the
    ten canonical fields, and each value comes back without its double
    quotes and trimmed.  Fields outside the schema are dropped and missing
    fields come back empty. *)
Theorem csvToArray_arrayToCSV_normal_form
    (data : list (gmap (list N) (list N))) :
  forallb newlineFree data = true ->
  Utils.csvToArray (Utils.arrayToCSV data) = map normalRecord data.
Proof. apply roundtrip_normal. Qed.

Lemma csvToArray_arrayToCSV_normal_form_witness :
  Utils.csvToArray (Utils.arrayToCSV [quoted_record; odd_record])
  = [<[js "Context" := js "say hi, ok"]> example_record;
     <[js "Tags" := []]> example_record].
Proof.
  rewrite (csvToArray_arrayToCSV_normal_form [quoted_record; odd_record])
    by (vm_compute; reflexivity).
  by_evaluation.
Defined.

(** X2.  In every record decoded from any text, no value holds a double
    quote or a newline, and no field name holds a comma or a newline. *)
Theorem csvToArray_never_keeps_delimiters
    (csvString : jsstring) (record : gmap (list N) (list N))
    (name value : jsstring) :
  record ∈ Utils.csvToArray csvString ->
  record !! name = Some value ->
  (QUOTE ∉ value) /\ (NEWLINE ∉ value) /\
  (COMMA ∉ name) /\ (NEWLINE ∉ name).
Proof.
  intros Hin Hl. destruct (csvToArray_values _ _ _ _ Hin Hl) as [Hq Hn].
  split; [exact Hq|]. split; [exact Hn|].
  rewrite csvToArray_unfold in Hin.
  destruct (isEmpty (trim csvString)); [inversion Hin|].
  destruct (csvToArray_loop_fields _ _ _ _ _ _ Hin Hl) as [H|[Hname _]];
    [inversion H|].
  unfold headerNames in Hname.
  apply list_elem_of_fmap in Hname as (part & -> & Hpart).
  assert (Hline : hd [] (split NEWLINE (trim csvString))
                  ∈ split NEWLINE (trim csvString)).
  { pose proof (split_nonempty NEWLINE (trim csvString)) as Hne.
    destruct (split NEWLINE (trim csvString)); [congruence | left]. }
  split; intros Hc; apply trim_elem in Hc;
    destruct (split_parts _ _ _ _ Hpart Hc) as [Hc1 Hc2]; [congruence|].
  destruct (split_parts _ _ _ _ Hline Hc1) as [_ Hc3]. congruence.
Qed.

Lemma csvToArray_never_keeps_delimiters_witness :
  (QUOTE ∉ js "a b") /\ (NEWLINE ∉ js "a b") /\
  (COMMA ∉ js "Context") /\ (NEWLINE ∉ js "Context").
Proof.
  apply (csvToArray_never_keeps_delimiters spaced_csv spaced_record).
  - replace (Utils.csvToArray spaced_csv) with [spaced_record]
      by (symmetry; by_evaluation).
    apply list_elem_of_singleton. reflexivity.
  - by_evaluation.
Defined.

(** X3.  Every record decoded from a text has the same fields: the trimmed
    names of its header line, without [__proto__]. *)
Theorem csvToArray_field_names
    (csvString : jsstring) (record : gmap (list N) (list N)) :
  record ∈ Utils.csvToArray csvString ->
  dom record
  = list_to_set
      (filter (fun header => header <> js "__proto__")
         (headerNames csvString)).
Proof.
  rewrite csvToArray_unfold.
  destruct (isEmpty (trim csvString)); [intros H; inversion H|].
  intros Hin. destruct (csvToArray_loop_dom _ _ _ _ Hin) as [H|H];
    [inversion H | exact H].
Qed.

Lemma csvToArray_field_names_witness :
  dom spaced_record = {[ js "Date"; js "Context" ]}.
Proof.
  rewrite (csvToArray_field_names spaced_csv spaced_record).
  - by_evaluation.
  - replace (Utils.csvToArray spaced_csv) with [spaced_record]
      by (symmetry; by_evaluation).
    apply list_elem_of_singleton. reflexivity.
Defined.

(** X4.  [csvToArray] gives one record for each line after the first that
    is not blank, whatever the line holds. *)
Theorem csvToArray_length (csvString : jsstring) :
  length (Utils.csvToArray csvString)
  = length (List.filter (fun line => negb (isEmpty (trim line)))
              (dataLines csvString)).
Proof.
  rewrite csvToArray_unfold. unfold dataLines.
  destruct (trim csvString) eqn:E; [reflexivity|]. cbn [isEmpty].
  rewrite csvToArray_loop_length. reflexivity.
Qed.

(** X5.  A text whose header line names exactly the canonical fields, in
    any order, decodes to a collection that encoding and decoding leave
    as it is: writing back what was read changes no record. *)
Theorem csvToArray_rewrite_stable (csvString : jsstring) :
  canonicalHeader csvString ->
  Utils.csvToArray (Utils.arrayToCSV (Utils.csvToArray csvString))
  = Utils.csvToArray csvString.
Proof. intros Hcanon. apply roundtrip_safe, csvToArray_safe, Hcanon. Qed.

Lemma csvToArray_rewrite_stable_witness :
  length (Utils.csvToArray shuffled_csv) = 2%nat /\
  Utils.csvToArray (Utils.arrayToCSV (Utils.csvToArray shuffled_csv))
  = Utils.csvToArray shuffled_csv.
Proof.
  split; [vm_compute; reflexivity|].
  apply (csvToArray_rewrite_stable shuffled_csv). by_evaluation.
Defined.

(** X6.  The encoder reads the ten canonical fields and nothing else: two
    collections that agree on them, record by record, a missing field
    counting as the empty string, are encoded to the same text. *)
Theorem arrayToCSV_reads_canonical_fields
    (data data' : list (gmap (list N) (list N))) :
  Forall2 sameCanonicalFields data data' ->
  Utils.arrayToCSV data = Utils.arrayToCSV data'.
Proof.
  intros Hsame.
  assert (Hrows : map Utils.encodeRow data = map Utils.encodeRow data').
  { induction Hsame as [|row row' rows rows' Hrow _ IH]; [reflexivity|].
    cbn [map]. rewrite IH. f_equal. unfold Utils.encodeRow. f_equal.
    unfold sameCanonicalFields in Hrow.
    induction Hrow as [|h hs Hh _ IHh]; [reflexivity|].
    cbn [map]. rewrite IHh. f_equal. unfold Utils.encodeValue.
    rewrite Hh. reflexivity. }
  destruct Hsame as [|row row' rows rows' _ _]; [reflexivity|].
  unfold Utils.arrayToCSV. rewrite Hrows. reflexivity.
Qed.

Lemma arrayToCSV_reads_canonical_fields_witness :
  Utils.arrayToCSV [odd_record]
  = Utils.arrayToCSV [<[js "Tags" := []]> example_record].
Proof.
  apply arrayToCSV_reads_canonical_fields.
  constructor; [by_evaluation | constructor].
Defined.

(** X7.  A line without double quotes is parsed by splitting it at its
    commas and trimming each part. *)
Theorem parseCSVLine_without_quotes (line : jsstring) :
  QUOTE ∉ line ->
  Utils.parseCSVLine line = map trim (split COMMA line).
Proof.
  intros Hq. unfold Utils.parseCSVLine.
  rewrite (loop_without_quotes line [] [] Hq).
  pose proof (split_nonempty COMMA line) as Hne.
  destruct (split COMMA line); [congruence | reflexivity].
Qed.

Lemma parseCSVLine_without_quotes_witness :
  Utils.parseCSVLine (js " a , b,,c ") = [js "a"; js "b"; []; js "c"].
Proof.
  rewrite (parseCSVLine_without_quotes (js " a , b,,c ")) by by_evaluation.
  by_evaluation.
Defined.

(** * Unique values and validation *)

Section UniqueFacts.

Import Utils.

Lemma addAll_spec (seen items : list jsstring) :
  NoDup seen ->
  NoDup (addAll seen items) /\
  (forall x, x ∈ addAll seen items <-> x ∈ seen \/ x ∈ items) /\
  exists rest, addAll seen items = seen ++ rest /\ rest `sublist_of` items.
Proof.
  revert seen. induction items as [|item items IH]; intros seen Hnd.
  - cbn [addAll]. split; [exact Hnd|]. split.
    + intros x. rewrite elem_of_nil. tauto.
    + exists []. rewrite app_nil_r. split; [reflexivity | constructor].
  - cbn [addAll]. destruct (bool_decide_reflect (item ∈ seen)) as [Hin|Hout].
    + destruct (IH seen Hnd) as (H1 & H2 & rest & H3 & H4).
      split; [exact H1|]. split.
      * intros x. rewrite H2, elem_of_cons. split; [tauto|].
        intros [H|[->|H]]; auto.
      * exists rest. split; [exact H3 | apply sublist_cons, H4].
    + assert (Hnd' : NoDup (seen ++ [item])).
      { apply NoDup_app. split; [exact Hnd|]. split.
        - intros x Hx ->%list_elem_of_singleton. exact (Hout Hx).
        - apply NoDup_singleton. }
      destruct (IH _ Hnd') as (H1 & H2 & rest & H3 & H4).
      split; [exact H1|]. split.
      * intros x. rewrite H2, elem_of_app, list_elem_of_singleton, elem_of_cons.
        tauto.
      * exists (item :: rest). rewrite H3, <- app_assoc.
        split; [reflexivity | apply sublist_skip, H4].
Qed.

Lemma keepsItem_Some item x :
  keepsItem item = Some x <-> item = Some x /\ isEmpty (trim x) = false.
Proof.
  unfold keepsItem. destruct item as [s|]; [|split; [discriminate|intros [[=] _]]].
  destruct s as [|c s].
  - cbn. split; [discriminate|]. intros [[= <-] H]. discriminate H.
  - cbn [isEmpty orb]. destruct (isEmpty (trim (c :: s))) eqn:E.
    + split; [discriminate|]. intros [[= <-] H]. congruence.
    + split; [intros [= <-]; auto | intros [[= <-] _]; reflexivity].
Qed.

(** In a list without duplicates an element has one place. *)
Lemma NoDup_place {A} (x : A) (b1 a1 b2 a2 : list A) :
  NoDup (b1 ++ x :: a1) -> b1 ++ x :: a1 = b2 ++ x :: a2 -> b1 = b2.
Proof.
  revert b2. induction b1 as [|y b1 IH]; intros b2 Hnd Heq.
  - destruct b2 as [|z b2]; [reflexivity|]. exfalso.
    injection Heq as <- ->. apply NoDup_cons in Hnd as [Hx _].
    apply Hx. rewrite elem_of_app, elem_of_cons. auto.
  - destruct b2 as [|z b2].
    + exfalso. injection Heq as -> _. apply NoDup_cons in Hnd as [Hx _].
      apply Hx. rewrite elem_of_app, elem_of_cons. auto.
    + injection Heq as <- Heq. apply NoDup_cons in Hnd as [_ Hnd].
      f_equal. apply IH; assumption.
Qed.

(** The elements [addAll] puts before a new element [x] are the ones
    seen before and the items before the first [x]. *)
Lemma addAll_order (seen items before after : list jsstring)
    (x : jsstring) :
  NoDup seen -> (x ∉ seen) ->
  addAll seen items = before ++ x :: after ->
  exists k1 k2,
    items = k1 ++ x :: k2 /\ (x ∉ k1) /\
    forall y, y ∈ before <-> y ∈ seen \/ y ∈ k1.
Proof.
  revert seen. induction items as [|item items IH]; intros seen Hnd Hx Heq.
  - cbn [addAll] in Heq. exfalso. apply Hx. rewrite Heq.
    rewrite elem_of_app, elem_of_cons. auto.
  - cbn [addAll] in Heq.
    destruct (bool_decide_reflect (item ∈ seen)) as [Hin|Hout].
    + destruct (IH seen Hnd Hx Heq) as (k1 & k2 & -> & Hk & Hb).
      exists (item :: k1), k2. split; [reflexivity|]. split.
      * rewrite elem_of_cons. intros [->|H]; [exact (Hx Hin) | exact (Hk H)].
      * intros y. rewrite Hb, elem_of_cons. split; [tauto|].
        intros [H|[->|H]]; auto.
    + assert (Hnd' : NoDup (seen ++ [item])).
      { apply NoDup_app. split; [exact Hnd|]. split.
        - intros z Hz ->%list_elem_of_singleton. exact (Hout Hz).
        - apply NoDup_singleton. }
      destruct (decide (x = item)) as [->|Hne].
      * destruct (addAll_spec (seen ++ [item]) items Hnd')
          as (Hnd2 & _ & rest & Hrest & _).
        rewrite Heq in Hnd2. rewrite Hrest, <- app_assoc in Heq.
        cbn [app] in Heq. symmetry in Heq.
        pose proof (NoDup_place _ _ _ _ _ Hnd2 Heq) as ->.
        exists [], items. split; [reflexivity|]. split.
        -- apply not_elem_of_nil.
        -- intros y. rewrite elem_of_nil. tauto.
      * assert (Hx' : x ∉ seen ++ [item]).
        { rewrite elem_of_app, list_elem_of_singleton. tauto. }
        destruct (IH _ Hnd' Hx' Heq) as (k1 & k2 & -> & Hk & Hb).
        exists (item :: k1), k2. split; [reflexivity|]. split.
        -- rewrite elem_of_cons. tauto.
        -- intros y. rewrite Hb, elem_of_app, list_elem_of_singleton,
             elem_of_cons. tauto.
Qed.

(** A place in the kept items is a place in the array. *)
Lemma omap_place {A B} (f : A -> option B) (l : list A)
    (k1 k2 : list B) (x : B) :
  omap f l = k1 ++ x :: k2 ->
  exists a1 i a2,
    l = a1 ++ i :: a2 /\ omap f a1 = k1 /\ f i = Some x.
Proof.
  revert k1. induction l as [|i l IH]; intros k1 Heq.
  - destruct k1; discriminate.
  - cbn [omap list_omap] in Heq. destruct (f i) as [b|] eqn:Hf.
    + destruct k1 as [|b' k1].
      * injection Heq as -> _. exists [], i, l. auto.
      * injection Heq as -> Heq.
        destruct (IH _ Heq) as (a1 & j & a2 & -> & <- & Hj).
        exists (i :: a1), j, a2. split; [reflexivity|].
        split; [|exact Hj]. cbn [omap list_omap]. rewrite Hf. reflexivity.
    + destruct (IH _ Heq) as (a1 & j & a2 & -> & <- & Hj).
      exists (i :: a1), j, a2. split; [reflexivity|].
      split; [|exact Hj]. cbn [omap list_omap]. rewrite Hf. reflexivity.
Qed.

End UniqueFacts.

(** X8.  [getUniqueValues] gives the items that are there and not blank,
    each once, in the order of their first occurrence: the values in front
    of a value [x] of the result are exactly the non-blank items in front
    of the first [x] of the array. *)
Theorem getUniqueValues_spec (array : list (option jsstring)) :
  NoDup (Utils.getUniqueValues array) /\
  (forall x, x ∈ Utils.getUniqueValues array <->
             Some x ∈ array /\ isEmpty (trim x) = false) /\
  Utils.getUniqueValues array `sublist_of` omap Utils.keepsItem array /\
  (forall before x after,
      Utils.getUniqueValues array = before ++ x :: after ->
      exists earlier later,
        array = earlier ++ Some x :: later /\ (Some x ∉ earlier) /\
        forall y, y ∈ before <->
                  Some y ∈ earlier /\ isEmpty (trim y) = false).
Proof.
  unfold Utils.getUniqueValues.
  destruct (addAll_spec [] (omap Utils.keepsItem array) (NoDup_nil_2))
    as (H1 & H2 & rest & H3 & H4).
  split; [exact H1|]. split; [|split].
  - intros x. rewrite H2, elem_of_nil, list_elem_of_omap. split.
    + intros [[]|(item & Hin & Hk)]. apply keepsItem_Some in Hk as [-> Hb].
      auto.
    + intros [Hin Hb]. right. exists (Some x). split; [exact Hin|].
      apply keepsItem_Some. auto.
  - rewrite H3. exact H4.
  - intros before x after Heq.
    destruct (addAll_order [] _ before after x (NoDup_nil_2)
                (not_elem_of_nil x) Heq) as (k1 & k2 & Hk & Hx & Hb).
    destruct (omap_place _ _ _ _ _ Hk) as (a1 & i & a2 & -> & <- & Hi).
    apply keepsItem_Some in Hi as [-> Hblank].
    assert (Hkept : forall y,
               y ∈ omap Utils.keepsItem a1 <->
               Some y ∈ a1 /\ isEmpty (trim y) = false).
    { intros y. rewrite list_elem_of_omap. split.
      - intros (item & Hin & Hy). apply keepsItem_Some in Hy as [-> Hy].
        auto.
      - intros [Hin Hy]. exists (Some y). split; [exact Hin|].
        apply keepsItem_Some. auto. }
    exists a1, a2. split; [reflexivity|]. split.
    + intros Hin. apply Hx, Hkept. auto.
    + intros y. rewrite Hb, elem_of_nil, Hkept. tauto.
Qed.

Section ValidationFacts.

Context `{Platform}.
Variable toUpperCase : jsstring -> jsstring.

Import Utils.

Lemma fail_consistent field message result :
  field <> js "__proto__" -> consistent (fail field message result).
Proof.
  intros Hp. unfold consistent, fail, setProperty. cbn [isValid errors].
  rewrite decide_False by exact Hp. split; [discriminate|].
  intros He. exfalso. exact (insert_non_empty _ _ _ He).
Qed.

Lemma validateField_consistent formData result field rules :
  field <> js "__proto__" -> consistent result ->
  consistent (validateField toUpperCase formData result (field, rules)).
Proof.
  intros Hp Hc. unfold validateField.
  destruct (required rules && isBlank (formData !! field));
    [apply fail_consistent, Hp|].
  destruct (negb (required rules) && isBlank (formData !! field));
    [exact Hc|].
  unfold checkDate, checkAllowedValues, checkMaxLength, checkMinLength.
  repeat match goal with
         | |- context [if ?b then _ else _] => destruct b
         | |- context [match ?o with Some _ => _ | None => _ end] =>
             destruct o
         end;
    first [exact Hc | apply fail_consistent, Hp].
Qed.

Lemma validate_consistent formData (rules : list (jsstring * rule)) result :
  Forall (fun entry => entry.1 <> js "__proto__") rules ->
  consistent result ->
  consistent (foldl (validateField toUpperCase formData) result rules).
Proof.
  intros Hall. revert result.
  induction Hall as [|[field r] rules Hp _ IH]; intros result Hc; [exact Hc|].
  cbn [foldl]. apply IH, validateField_consistent; [exact Hp | exact Hc].
Qed.

(** The loop reads the form data at the fields of the rules only. *)
Lemma validate_ext formData formData' (rules : list (jsstring * rule))
    result :
  Forall (fun entry => formData !! entry.1 = formData' !! entry.1) rules ->
  foldl (validateField toUpperCase formData) result rules
  = foldl (validateField toUpperCase formData') result rules.
Proof.
  intros Hall. revert result.
  induction Hall as [|[field r] rules Hf _ IH]; intros result; [reflexivity|].
  cbn [foldl]. rewrite IH. f_equal. unfold validateField.
  cbn [fst] in Hf. rewrite Hf. reflexivity.
Qed.

End ValidationFacts.

Lemma rules_not_proto :
  Forall (fun entry : jsstring * rule => entry.1 <> js "__proto__")
    VALIDATION_RULES.
Proof. by_evaluation. Qed.

(** X9.  [validateFormData] reports a form as valid exactly when it
    reports no error for it, whatever the form data, the platform and the
    upper-casing are. *)
Theorem validateFormData_valid_iff_no_errors `{Platform}
    (toUpperCase : jsstring -> jsstring)
    (formData : gmap (list N) (list N)) :
  Utils.isValid (Utils.validateFormData toUpperCase formData) = true <->
  Utils.errors (Utils.validateFormData toUpperCase formData) = ∅.
Proof.
  change (consistent (Utils.validateFormData toUpperCase formData)).
  unfold Utils.validateFormData.
  apply validate_consistent.
  - exact rules_not_proto.
  - split; reflexivity.
Qed.

(** A property that is set on each of a list of keys leaves the other
    keys as they were. *)
Lemma foldl_setProperty_lookup (value : jsstring -> jsstring)
    (headers : list jsstring) (data : gmap (list N) (list N))
    (key : jsstring) :
  key ∉ headers ->
  foldl (fun data header => setProperty header (value header) data)
    data headers !! key = data !! key.
Proof.
  revert data. induction headers as [|header headers IH]; intros data Hk;
    [reflexivity|].
  cbn [foldl]. rewrite IH by (intros Hin; apply Hk; right; exact Hin).
  unfold setProperty. destruct (decide (header = js "__proto__"));
    [reflexivity|].
  apply lookup_insert_ne. intros ->. apply Hk. left.
Qed.

Lemma getFormData_lookup (form : jsstring -> option jsstring)
    (key : jsstring) :
  key ∉ APP_CONFIG.CSV_HEADERS ->
  TrackRecordApp.getFormData form !! key = None.
Proof.
  intros Hk. unfold TrackRecordApp.getFormData.
  rewrite (foldl_setProperty_lookup
             (fun header =>
                default []
                  (form (interpolate
                           (TrackRecordApp.getFieldNameByHeader header)))))
    by exact Hk.
  apply lookup_empty.
Qed.

Lemma rule_fields_are_no_headers :
  Forall (fun entry : jsstring * rule => entry.1 ∉ APP_CONFIG.CSV_HEADERS)
    VALIDATION_RULES.
Proof. by_evaluation. Qed.

(** X10.  The object [getFormData] builds is keyed by the CSV headers,
    and [validateFormData] reads it at the names of the rules, which are
    other strings.  So whatever the form holds, the validation of the
    form data fails, with the message of a missing required field for
    each of the four required fields and no other message. *)
Theorem validateFormData_rejects_form_data `{Platform}
    (toUpperCase : jsstring -> jsstring)
    (form : jsstring -> option jsstring) :
  let result :=
    Utils.validateFormData toUpperCase (TrackRecordApp.getFormData form) in
  Utils.isValid result = false /\
  Utils.errors result
  = list_to_map
      (map (fun field =>
              (field,
               Utils.capitalizeFirst toUpperCase field ++ js " is required"))
         [ js "date"; js "context"; js "project"; js "status" ]).
Proof.
  assert (Hsame : Utils.validateFormData toUpperCase
                    (TrackRecordApp.getFormData form)
                  = Utils.validateFormData toUpperCase ∅).
  { unfold Utils.validateFormData. apply validate_ext.
    eapply Forall_impl; [exact rule_fields_are_no_headers|].
    intros entry Hk. cbv beta in Hk. rewrite lookup_empty.
    apply getFormData_lookup, Hk. }
  cbv zeta. rewrite Hsame. split; vm_compute; reflexivity.
Qed.

(** * Pages *)

Section PageFacts.

(** [slice] between two indices that are not negative. *)
Lemma slice_take_drop {A} (from to : nat) (array : list A) :
  slice (Z.of_nat from) (Z.of_nat to) array
  = take (to - from) (drop from array).
Proof.
  unfold slice.
  destruct (Z.ltb_spec (Z.of_nat from) 0); [lia|].
  destruct (Z.ltb_spec (Z.of_nat to) 0); [lia|].
  destruct (decide (from <= length array)%nat) as [Hf|Hf].
  - rewrite (Z.min_l (Z.of_nat from)) by lia. rewrite Nat2Z.id.
    destruct (decide (to <= length array)%nat) as [Ht|Ht].
    + rewrite (Z.min_l (Z.of_nat to)) by lia. rewrite Nat2Z.id. reflexivity.
    + rewrite (Z.min_r (Z.of_nat to)) by lia. rewrite Nat2Z.id.
      rewrite !take_ge by (rewrite length_drop; lia). reflexivity.
  - rewrite (Z.min_r (Z.of_nat from)) by lia. rewrite Nat2Z.id.
    rewrite !drop_ge by lia. rewrite !take_nil. reflexivity.
Qed.

(** Pages of [size] elements, [pages] of them, cover a list that is not
    longer than [pages * size]. *)
Lemma concat_pages {A} (size pages : nat) (array : list A) :
  (length array <= pages * size)%nat ->
  concat (map (fun page => take size (drop (page * size) array))
            (seq 0 pages))
  = array.
Proof.
  revert array. induction pages as [|pages IH]; intros array Hlen.
  - destruct array; [reflexivity | cbn in Hlen; lia].
  - cbn [seq map concat]. rewrite <- seq_shift, map_map.
    change (0 * size)%nat with 0%nat. rewrite drop_0.
    rewrite <- (take_drop size array) at 2. f_equal.
    rewrite <- (IH (drop size array)) by (rewrite length_drop; lia).
    f_equal. apply map_ext. intros page. rewrite drop_drop.
    f_equal; f_equal; lia.
Qed.

End PageFacts.

(** X11.  No change of the search term, of a field filter or of the sort
    assigns the current page index: [applyFilters], [clearFilters] and
    [sortByField] leave it as it is, without the reset to 1 that the
    listener of the page size does. *)
Theorem view_changes_keep_page_index `{Platform} (app : TrackRecordApp)
    (value name field : jsstring) :
  currentPage (TrackRecordApp.onSearchInput value app) = currentPage app /\
  currentPage (TrackRecordApp.onFilterChange name value app)
  = currentPage app /\
  currentPage (TrackRecordApp.clearFilters app) = currentPage app /\
  currentPage (TrackRecordApp.sortByField field app) = currentPage app.
Proof.
  repeat split.
  unfold TrackRecordApp.sortByField.
  destruct (bool_decide (sortField app = field)); reflexivity.
Qed.

(** X12.  For a positive page size, a page index beyond the number of
    pages shows no record, also when the filtered records are not empty.
    This is the blank page a search leaves when it narrows the records to
    fewer pages than the current index, which it does not reset. *)
Theorem page_beyond_last_is_blank (app : TrackRecordApp) :
  (0 < pageSize app)%Z ->
  (TrackRecordApp.totalPages app < currentPage app)%Z ->
  TrackRecordApp.getPaginatedData app = [].
Proof.
  intros Hsize Hpage.
  unfold TrackRecordApp.totalPages in Hpage.
  unfold TrackRecordApp.getPaginatedData, slice.
  set (len := Z.of_nat (length (filteredRecords app))) in *.
  pose proof (Z.div_mod (len + pageSize app - 1) (pageSize app)
                ltac:(lia)) as Hd.
  pose proof (Z.mod_pos_bound (len + pageSize app - 1) (pageSize app)
                Hsize) as Hm.
  assert (Hlen : (0 <= len)%Z) by (unfold len; lia).
  assert (Hpast : (len <= (currentPage app - 1) * pageSize app)%Z) by nia.
  destruct (Z.ltb_spec ((currentPage app - 1) * pageSize app) 0); [lia|].
  destruct (Z.ltb_spec ((currentPage app - 1) * pageSize app
                        + pageSize app) 0); [lia|].
  rewrite !Z.min_r by lia. rewrite Nat.sub_diag. apply take_0.
Qed.

Lemma page_beyond_last_is_blank_witness :
  let narrowed :=
    @TrackRecordApp.onSearchInput samplePlatform (js "a, thing") browsingApp in
  filteredRecords narrowed = [example_record] /\
  currentPage narrowed = 2%Z /\
  TrackRecordApp.totalPages narrowed = 1%Z /\
  TrackRecordApp.getPaginatedData narrowed = [].
Proof.
  cbv zeta. split; [by_evaluation|]. split; [reflexivity|].
  split; [vm_compute; reflexivity|].
  apply (page_beyond_last_is_blank
           (@TrackRecordApp.onSearchInput samplePlatform (js "a, thing")
              browsingApp)); vm_compute; reflexivity.
Defined.

(** X13.  For a current page within 1..[totalPages],
    [renderPageNumbers] creates the page numbers of a window of five pages,
    or of all pages when there are fewer: consecutive numbers that start
    two below the current page, moved up to start at 1 and down to end at
    [totalPages] where needed. *)
Theorem renderPageNumbers_window (app : TrackRecordApp) (totalPages : Z) :
  (1 <= currentPage app <= totalPages)%Z ->
  TrackRecordApp.renderPageNumbers app totalPages
  = seqZ (Z.max 1 (Z.min (currentPage app - 2) (totalPages - 4)))
      (Z.min 5 totalPages).
Proof.
  intros Hp. unfold TrackRecordApp.renderPageNumbers,
    TrackRecordApp.pageWindow.
  change (5 / 2)%Z with 2%Z. cbv zeta.
  destruct (Z.ltb_spec
              (Z.min totalPages (Z.max 1 (currentPage app - 2) + 5 - 1)
               - Z.max 1 (currentPage app - 2) + 1) 5);
    f_equal; lia.
Qed.

Lemma renderPageNumbers_window_witness :
  TrackRecordApp.renderPageNumbers browsingApp 3 = [1; 2; 3]%Z.
Proof.
  rewrite (renderPageNumbers_window browsingApp 3)
    by (vm_compute; split; discriminate).
  reflexivity.
Defined.

(** X14.  For a positive page size the pages partition the filtered
    records: the pages 1 to [totalPages], one after the other, give the
    filtered records in order, and no page, whatever its index, shows more
    than [pageSize] records. *)
Theorem getPaginatedData_covers (app : TrackRecordApp) :
  (0 < pageSize app)%Z ->
  concat
    (map (fun page =>
            TrackRecordApp.getPaginatedData (TrackRecordApp.goToPage page app))
       (seqZ 1 (TrackRecordApp.totalPages app)))
  = filteredRecords app /\
  forall page : Z,
    (Z.of_nat
       (length
          (TrackRecordApp.getPaginatedData
             (TrackRecordApp.goToPage page app))) <= pageSize app)%Z.
Proof.
  intros Hsize. split.
  - unfold TrackRecordApp.totalPages.
    set (len := Z.of_nat (length (filteredRecords app))).
    set (pages := ((len + pageSize app - 1) / pageSize app)%Z).
    assert (Hpages : (0 <= pages /\ len <= pages * pageSize app)%Z).
    { unfold pages.
      pose proof (Z.div_mod (len + pageSize app - 1) (pageSize app)
                    ltac:(lia)) as Hd.
      pose proof (Z.mod_pos_bound (len + pageSize app - 1) (pageSize app)
                    Hsize) as Hm.
      split; [apply Z.div_pos; lia | nia]. }
    etransitivity;
      [|apply (concat_pages (Z.to_nat (pageSize app)) (Z.to_nat pages));
        unfold len in Hpages; nia].
    f_equal. unfold seqZ.
    change (fmap (M := list) ?f ?l) with (map f l).
    rewrite map_map. apply map_ext. intros page.
    unfold TrackRecordApp.getPaginatedData, TrackRecordApp.goToPage.
    cbn [currentPage pageSize filteredRecords setCurrentPage].
    replace ((Z.of_nat page + 1 - 1) * pageSize app)%Z
      with (Z.of_nat (page * Z.to_nat (pageSize app))) by lia.
    replace (Z.of_nat (page * Z.to_nat (pageSize app)) + pageSize app)%Z
      with (Z.of_nat (page * Z.to_nat (pageSize app)
                      + Z.to_nat (pageSize app))) by lia.
    rewrite slice_take_drop. f_equal. lia.
  - intros page. unfold TrackRecordApp.getPaginatedData, slice.
    rewrite length_take. cbn [currentPage pageSize filteredRecords
                               TrackRecordApp.goToPage setCurrentPage].
    set (len := Z.of_nat (length (filteredRecords app))).
    set (from := ((page - 1) * pageSize app)%Z).
    destruct (Z.ltb_spec from 0), (Z.ltb_spec (from + pageSize app) 0); lia.
Qed.

Lemma getPaginatedData_covers_witness :
  concat
    (map (fun page =>
            TrackRecordApp.getPaginatedData
              (TrackRecordApp.goToPage page browsingApp))
       (seqZ 1 (TrackRecordApp.totalPages browsingApp)))
  = filteredRecords browsingApp /\
  forall page : Z,
    (Z.of_nat
       (length
          (TrackRecordApp.getPaginatedData
             (TrackRecordApp.goToPage page browsingApp)))
     <= pageSize browsingApp)%Z.
Proof. apply (getPaginatedData_covers browsingApp). reflexivity. Defined.

(** * Field filters and sorting *)

Section FilterFacts.

Context `{Platform}.

Import TrackRecordApp.

Lemma filter_bool {A} (f : A -> bool) (l : list A) :
  List.filter f l = filter (fun x => f x = true) l.
Proof.
  induction l as [|x l IH]; [reflexivity|].
  cbn [List.filter]. rewrite filter_cons, IH.
  destruct (f x); [rewrite decide_True | rewrite decide_False];
    congruence.
Qed.

Lemma filter_all {A} (P : A -> Prop) `{!forall x, Decision (P x)}
    (l : list A) :
  (forall x, P x) -> filter P l = l.
Proof.
  intros HP. induction l as [|x l IH]; [reflexivity|].
  rewrite filter_cons, decide_True by apply HP. rewrite IH. reflexivity.
Qed.

Lemma filter_none {A} (P : A -> Prop) `{!forall x, Decision (P x)}
    (l : list A) :
  Forall (fun x => ~ P x) l -> filter P l = [].
Proof.
  induction 1 as [|x l Hx _ IH]; [reflexivity|].
  rewrite filter_cons, decide_False by exact Hx. exact IH.
Qed.

Lemma applyFieldFilters_filter filters records :
  applyFieldFilters filters records
  = filter
      (fun record =>
         map_Forall
           (fun field value =>
              isEmpty value = false ->
              fieldMatches field value record = true)
           filters)
      records.
Proof.
  unfold applyFieldFilters.
  pose (P := fun (result : list (gmap (list N) (list N)))
                 (m : gmap (list N) (list N)) =>
               result
               = filter
                   (fun record =>
                      map_Forall
                        (fun field value =>
                           isEmpty value = false ->
                           fieldMatches field value record = true)
                        m)
                   records).
  apply (map_fold_weak_ind P); unfold P.
  - symmetry. apply filter_all. intros record. apply map_Forall_empty.
  - intros field value m result Hm ->.
    destruct (isEmpty value) eqn:Hv.
    + apply list_filter_iff. intros record.
      rewrite map_Forall_insert by exact Hm. rewrite Hv.
      split; [intros Hp; split; [discriminate | exact Hp] | intros [_ Hp];
              exact Hp].
    + rewrite filter_bool, list_filter_filter.
      apply list_filter_iff. intros record.
      rewrite map_Forall_insert by exact Hm.
      split; intros [H1 H2]; (split; [|exact H2]); auto.
Qed.

Lemma fieldMatches_missing field value record :
  record !! field = None -> fieldMatches field value record = false.
Proof.
  intros Hr. unfold fieldMatches. rewrite Hr.
  destruct (bool_decide (field = js "date")); [|reflexivity].
  apply bool_decide_eq_false. discriminate.
Qed.

Lemma applySearch_Forall (P : gmap (list N) (list N) -> Prop) term
    records :
  Forall P records -> Forall P (applySearch term records).
Proof.
  intros Hall. unfold applySearch, Utils.filterArray.
  destruct (isEmpty term); [exact Hall|]. cbn [orb].
  destruct (isEmpty (trim term)); [exact Hall|].
  rewrite filter_bool. apply Forall_forall. intros record Hin.
  apply list_elem_of_filter in Hin as [_ Hin].
  exact (proj1 (Forall_forall _ _) Hall record Hin).
Qed.

End FilterFacts.

(** X15.  The field filters keep, in their order, exactly the records
    that match every filter whose value is not empty; the order in which
    the filters are visited does not show in the result. *)
Theorem applyFieldFilters_spec `{Platform}
    (filters : gmap (list N) (list N))
    (records : list (gmap (list N) (list N))) :
  TrackRecordApp.applyFieldFilters filters records
  = filter
      (fun record =>
         map_Forall
           (fun field value =>
              isEmpty value = false ->
              TrackRecordApp.fieldMatches field value record = true)
           filters)
      records.
Proof. apply applyFieldFilters_filter. Qed.

(** X16.  The listeners of the status, project and date filters store
    their value under the names status, project and date, which no record
    with the canonical fields has.  So on records that have exactly the
    canonical fields, choosing any value that is not empty in one of these
    filters leaves no record to show: the filtered records are the result
    of sorting the empty array. *)
Theorem onFilterChange_shows_nothing `{Platform}
    (name value : jsstring) (app : TrackRecordApp) :
  name ∈ [js "status"; js "project"; js "date"] ->
  value <> [] ->
  Forall (fun record => dom record = list_to_set APP_CONFIG.CSV_HEADERS)
    (trackRecords app) ->
  filteredRecords (TrackRecordApp.onFilterChange name value app)
  = Utils.sortArray [] (sortField app) (sortDirection app).
Proof.
  intros Hname Hvalue Hrecords.
  unfold TrackRecordApp.onFilterChange, TrackRecordApp.applyFilters.
  cbn [filteredRecords setFilteredRecords setCurrentFilters trackRecords
       searchTerm currentFilters sortField sortDirection].
  f_equal. rewrite applyFieldFilters_filter. apply filter_none.
  assert (Hproto : name <> js "__proto__").
  { intros ->. revert Hname. apply (bool_decide_eq_false_1 _).
    vm_compute. reflexivity. }
  assert (Hheader : name ∉ APP_CONFIG.CSV_HEADERS).
  { revert Hname. rewrite !elem_of_cons, elem_of_nil.
    intros [->|[->|[->|[]]]]; by_evaluation. }
  apply applySearch_Forall. eapply Forall_impl; [exact Hrecords|].
  intros record Hdom Hpass. cbv beta in Hdom.
  assert (Hmissing : record !! name = None).
  { apply not_elem_of_dom. rewrite Hdom.
    rewrite elem_of_list_to_set. exact Hheader. }
  specialize (Hpass name value). unfold setProperty in Hpass.
  rewrite decide_False in Hpass by exact Hproto.
  rewrite lookup_insert_eq in Hpass.
  rewrite (fieldMatches_missing _ _ _ Hmissing) in Hpass.
  assert (isEmpty value = false) as Hv by (destruct value; [congruence | reflexivity]).
  specialize (Hpass eq_refl Hv). discriminate.
Qed.

Lemma onFilterChange_shows_nothing_witness :
  filteredRecords
    (@TrackRecordApp.onFilterChange samplePlatform (js "status")
       (js "Completed") browsingApp)
  = @Utils.sortArray samplePlatform [] (js "Date") (js "desc").
Proof.
  apply (@onFilterChange_shows_nothing samplePlatform (js "status")
           (js "Completed") browsingApp).
  - by_evaluation.
  - discriminate.
  - by_evaluation.
Defined.

Section SortFacts.

Context `{Platform}.

Import Utils.

Lemma stringLt_irrefl (s : jsstring) : stringLt s s = false.
Proof.
  induction s as [|c s IH]; [reflexivity|].
  cbn [stringLt]. rewrite N.ltb_irrefl. exact IH.
Qed.

Lemma keyLt_irrefl (k : sortKey) : keyLt k k = false.
Proof.
  destruct k as [[t|]|s]; cbn [keyLt];
    [apply Z.ltb_irrefl | reflexivity | apply stringLt_irrefl].
Qed.

End SortFacts.

(** X17.  The comparator of [sortArray] answers no 0 for a tie: for two
    records with the same sort key, and in a sort by Date for a record
    whose Date is not a date, it answers -1 in both orders, whatever the
    direction. *)
Theorem comparator_ties `{Platform} (field direction : jsstring)
    (a b : gmap (list N) (list N)) :
  Utils.sortKeyOf field a = Utils.sortKeyOf field b \/
  Utils.sortKeyOf field a = Utils.DateKey None ->
  Utils.comparator field direction a b = (-1)%Z /\
  Utils.comparator field direction b a = (-1)%Z.
Proof.
  intros Hkey. unfold Utils.comparator.
  assert (Hlt : Utils.keyLt (Utils.sortKeyOf field a)
                  (Utils.sortKeyOf field b) = false /\
                Utils.keyLt (Utils.sortKeyOf field b)
                  (Utils.sortKeyOf field a) = false).
  { destruct Hkey as [->| ->].
    - split; apply keyLt_irrefl.
    - split; [reflexivity|].
      destruct (Utils.sortKeyOf field b) as [[t|]|s]; reflexivity. }
  destruct Hlt as [-> ->]. destruct (decide (direction = js "asc")); auto.
Qed.

Lemma comparator_ties_witness :
  @Utils.comparator samplePlatform (js "Status") (js "asc")
    example_record odd_record = (-1)%Z /\
  @Utils.comparator samplePlatform (js "Status") (js "asc")
    odd_record example_record = (-1)%Z.
Proof.
  apply (@comparator_ties samplePlatform). left. vm_compute. reflexivity.
Defined.

(** * The configuration gate and the requests of the client *)

Section GateFacts.

Context `{Platform}.

Import GitHubAPI.

Lemma updateCSVContent_not_configured content commitMessage (st : state) :
  isConfigured (this st) = false ->
  exists e, updateCSVContent content commitMessage st = (inl e, st).
Proof.
  intros Hc. unfold updateCSVContent, bind, getThis, lift.
  destruct (btoa content) as [e|encoded]; [exists e; reflexivity|].
  rewrite (makeRequest_not_configured _ _ _ st Hc).
  exists NotConfigured. reflexivity.
Qed.

Lemma getCSVContent_not_configured (st : state) :
  isConfigured (this st) = false ->
  getCSVContent true st = (inl NotConfigured, st).
Proof.
  intros Hc. unfold getCSVContent, bind, getThis, dateNow, tryCatch.
  cbn [negb andb]. rewrite (makeRequest_not_configured _ _ _ st Hc).
  unfold onReadError.
  replace (includes (errorMessage NotConfigured) (js "404")) with false
    by (vm_compute; reflexivity).
  reflexivity.
Qed.

Lemma getCSVContent_not_configured_state forceRefresh (st : state) :
  isConfigured (this st) = false ->
  snd (getCSVContent forceRefresh st) = st /\
  (cacheIsFresh (this st) (now (world st)) = false ->
   getCSVContent forceRefresh st = (inl NotConfigured, st)).
Proof.
  intros Hc. pose proof (getCSVContent_not_configured st Hc) as Hforced.
  unfold getCSVContent, bind, getThis, dateNow in *.
  destruct forceRefresh; cbn [negb andb] in *.
  - rewrite Hforced. auto.
  - destruct (cacheIsFresh (this st) (now (world st))).
    + split; [reflexivity | discriminate].
    + rewrite Hforced. auto.
Qed.

End GateFacts.

(** X18.  On a client that is not configured, as the constructor leaves
    it, no method reaches the network: a forced read, and a read without a
    fresh cache, throw the configuration error, a write and an append
    throw, and each leaves the state, with its list of requests, as it
    was. *)
Theorem unconfigured_client_never_fetches `{Platform} (st : state) :
  GitHubAPI.isConfigured (this st) = false ->
  (forall forceRefresh,
      snd (GitHubAPI.getCSVContent forceRefresh st) = st /\
      (GitHubAPI.cacheIsFresh (this st) (now (world st)) = false ->
       GitHubAPI.getCSVContent forceRefresh st = (inl NotConfigured, st))) /\
  GitHubAPI.getCSVContent true st = (inl NotConfigured, st) /\
  (forall content commitMessage,
      exists e,
        GitHubAPI.updateCSVContent content commitMessage st = (inl e, st)) /\
  (forall entry,
      exists e, GitHubAPI.appendEntry entry st = (inl e, st)).
Proof.
  intros Hc.
  split; [intros f; apply getCSVContent_not_configured_state, Hc|].
  split; [apply getCSVContent_not_configured, Hc|].
  split; [intros content msg; apply updateCSVContent_not_configured, Hc|].
  intros entry. unfold GitHubAPI.appendEntry, bind.
  destruct (getCSVContent_not_configured_state false st Hc) as [Hst _].
  destruct (GitHubAPI.getCSVContent false st) as [[e|text] st'].
  - cbn [snd] in Hst. subst st'. exists e. reflexivity.
  - cbn [snd] in Hst. subst st'.
    destruct (updateCSVContent_not_configured
                (Utils.arrayToCSV (Utils.csvToArray text ++ [entry]))
                (js "Add track record entry: "
                 ++ interpolate (entry !! js "Project/Task") ++ js " - "
                 ++ interpolate (entry !! js "Date")) st Hc) as [e He].
    rewrite He. exists e. reflexivity.
Qed.

Lemma unconfigured_client_never_fetches_witness :
  GitHubAPI.isConfigured newGitHubAPI = false /\
  @GitHubAPI.getCSVContent samplePlatform false
    (startAt newGitHubAPI (storeHolding headerFile (js "rev1") 1000))
  = (inl NotConfigured,
     startAt newGitHubAPI (storeHolding headerFile (js "rev1") 1000)).
Proof.
  split; [vm_compute; reflexivity|].
  apply (@unconfigured_client_never_fetches samplePlatform
           (startAt newGitHubAPI (storeHolding headerFile (js "rev1") 1000)));
    vm_compute; reflexivity.
Defined.

Section StepFacts.

Context `{Platform}.

Import GitHubAPI.

Lemma sameRepository_refl api : sameRepository api api.
Proof. repeat split. Qed.

Lemma sameRepository_withCache content revision fetched api :
  sameRepository api (withCache content revision fetched api).
Proof. repeat split. Qed.

Lemma sameRepository_endpoint a b :
  sameRepository a b -> contentsEndpoint a = contentsEndpoint b.
Proof.
  intros (Ho & Hr & Hp & _). unfold contentsEndpoint.
  rewrite Ho, Hr, Hp. reflexivity.
Qed.

Lemma within_still {A} (m : M A) :
  (forall st, snd (m st) = st) -> within 0 m.
Proof.
  intros Hm st. rewrite Hm. split; [apply sameRepository_refl|].
  exists []. rewrite app_nil_r. split; [reflexivity|].
  split; [reflexivity | constructor].
Qed.

Lemma within_le {A} (n n' : nat) (m : M A) :
  (n <= n')%nat -> within n m -> within n' m.
Proof.
  intros Hle Hm st. destruct (Hm st) as (Hs & new & Hr & Hn & Hu).
  split; [exact Hs|]. exists new. split; [exact Hr|]. split; [lia|exact Hu].
Qed.

Lemma within_then {A B} (n k : nat) (m : M A) (next : state -> M B)
    (run : M B) :
  within n m ->
  (forall st, within k (next st)) ->
  (forall st, run st = next st (snd (m st))) ->
  within (n + k) run.
Proof.
  intros Hm Hnext Hrun st. rewrite Hrun.
  destruct (Hm st) as ((Ho & Hr & Hp & Ht) & new & Hreq & Hn & Hu).
  destruct (Hnext st (snd (m st)))
    as ((Ho' & Hr' & Hp' & Ht') & new' & Hreq' & Hn' & Hu').
  split; [repeat split; congruence|].
  exists (new ++ new'). rewrite Hreq', Hreq, app_assoc.
  split; [reflexivity|]. split; [rewrite length_app; lia|].
  apply Forall_app. split; [exact Hu|].
  rewrite (sameRepository_endpoint (this st) (this (snd (m st))))
    by (repeat split; assumption).
  exact Hu'.
Qed.

Lemma within_bind {A B} (n k : nat) (m : M A) (f : A -> M B) :
  within n m -> (forall a, within k (f a)) -> within (n + k) (bind m f).
Proof.
  intros Hm Hf.
  apply (within_then n k m
           (fun st => match fst (m st) with
                      | inl e => fun st' => (inl e, st')
                      | inr a => f a
                      end)); [exact Hm | |].
  - intros st. destruct (fst (m st)) as [e|a]; [|apply Hf].
    apply (within_le 0); [lia|]. apply within_still. reflexivity.
  - intros st. unfold bind. destruct (m st) as [[e|a] st']; reflexivity.
Qed.

Lemma within_tryCatch {A} (n k : nat) (m : M A) (handler : error -> M A) :
  within n m -> (forall e, within k (handler e)) ->
  within (n + k) (tryCatch m handler).
Proof.
  intros Hm Hh.
  apply (within_then n k m
           (fun st => match fst (m st) with
                      | inl e => handler e
                      | inr a => fun st' => (inr a, st')
                      end)); [exact Hm | |].
  - intros st. destruct (fst (m st)) as [e|a]; [apply Hh|].
    apply (within_le 0); [lia|]. apply within_still. reflexivity.
  - intros st. unfold tryCatch. destruct (m st) as [[e|a] st']; reflexivity.
Qed.

Lemma within_ret {A} (a : A) : within 0 (ret a).
Proof. apply within_still. reflexivity. Qed.

Lemma within_throw {A} (e : error) : within 0 (throw (A := A) e).
Proof. apply within_still. reflexivity. Qed.

Lemma within_lift {A} (r : error + A) : within 0 (lift r).
Proof. apply within_still. reflexivity. Qed.

Lemma within_dateNow : within 0 dateNow.
Proof. apply within_still. reflexivity. Qed.

Lemma within_setBase64Content value : within 0 (setBase64Content value).
Proof.
  intros st. split; [apply sameRepository_withCache|].
  exists []. cbn. rewrite app_nil_r. split; [reflexivity|].
  split; [reflexivity | constructor].
Qed.

Lemma within_setSha value : within 0 (setSha value).
Proof.
  intros st. split; [apply sameRepository_withCache|].
  exists []. cbn. rewrite app_nil_r. split; [reflexivity|].
  split; [reflexivity | constructor].
Qed.

Lemma within_setLastFetch value : within 0 (setLastFetch value).
Proof.
  intros st. split; [apply sameRepository_withCache|].
  exists []. cbn. rewrite app_nil_r. split; [reflexivity|].
  split; [reflexivity | constructor].
Qed.

(** [makeRequest] for a given endpoint hands at most one request to
    [fetch], for that endpoint. *)
Lemma makeRequest_requests endpoint method body (st : state) :
  this (snd (makeRequest endpoint method body st)) = this st /\
  exists new,
    requests (snd (makeRequest endpoint method body st))
    = requests st ++ new /\
    (length new <= 1)%nat /\
    Forall (fun r => url r = GITHUB_API_BASE ++ endpoint) new.
Proof.
  unfold makeRequest.
  destruct (negb (isConfigured (this st))).
  { split; [reflexivity|]. exists []. rewrite app_nil_r.
    split; [reflexivity|]. split; [cbn; lia | constructor]. }
  destruct (fetch _ (world st)) as [result world'].
  assert (Hnew : forall (r : error + json),
             this (snd (r, {| this := this st; world := world';
                              requests := requests st
                                ++ [{| url := GITHUB_API_BASE ++ endpoint;
                                       request_method := method;
                                       body := body |}] |})) = this st /\
             exists new,
               requests (snd (r, {| this := this st; world := world';
                                    requests := requests st
                                      ++ [{| url := GITHUB_API_BASE
                                                    ++ endpoint;
                                             request_method := method;
                                             body := body |}] |}))
               = requests st ++ new /\
               (length new <= 1)%nat /\
               Forall (fun r => url r = GITHUB_API_BASE ++ endpoint) new).
  { intros r. split; [reflexivity|]. eexists. split; [reflexivity|].
    split; [cbn; lia|]. constructor; [reflexivity | constructor]. }
  destruct result as [reason|response]; [apply Hnew|].
  destruct (ok response); [apply Hnew|].
  destruct (status response =? 401); [apply Hnew|].
  destruct (status response =? 403); apply Hnew.
Qed.


(** [makeRequest] on the file of the instance. *)
Lemma within_makeRequest (api : GitHubAPI) method body :
  forall st : state,
    sameRepository api (this st) ->
    sameRepository (this st)
      (this (snd (makeRequest (contentsEndpoint api) method body st))) /\
    exists new,
      requests (snd (makeRequest (contentsEndpoint api) method body st))
      = requests st ++ new /\
      (length new <= 1)%nat /\
      Forall
        (fun r => url r = GITHUB_API_BASE ++ contentsEndpoint (this st)) new.
Proof.
  intros st Hsame.
  destruct (makeRequest_requests (contentsEndpoint api) method body st)
    as (Hthis & new & Hreq & Hn & Hu).
  split; [rewrite Hthis; apply sameRepository_refl|].
  exists new. split; [exact Hreq|]. split; [exact Hn|].
  rewrite <- (sameRepository_endpoint _ _ Hsame). exact Hu.
Qed.

(** A method that starts by reading the instance. *)
Lemma within_getThis_then {A} (n : nat) (k : GitHubAPI -> M A) :
  (forall st : state,
      sameRepository (this st) (this (snd (k (this st) st))) /\
      exists new,
        requests (snd (k (this st) st)) = requests st ++ new /\
        (length new <= n)%nat /\
        Forall
          (fun r => url r = GITHUB_API_BASE ++ contentsEndpoint (this st))
          new) ->
  within n (bind getThis k).
Proof. intros Hk st. exact (Hk st). Qed.

Lemma withinFrom_within {A} api n (m : M A) :
  within n m -> withinFrom api n m.
Proof. intros Hm st _. apply Hm. Qed.

Lemma withinFrom_bind {A B} api (n k : nat) (m : M A) (f : A -> M B) :
  withinFrom api n m -> (forall a, withinFrom api k (f a)) ->
  withinFrom api (n + k) (bind m f).
Proof.
  intros Hm Hf st Hsame. unfold bind.
  destruct (Hm st Hsame) as (Hs & new & Hreq & Hn & Hu).
  destruct (m st) as [[e|a] st'] eqn:Hrun; cbn [snd] in *.
  - split; [exact Hs|]. exists new. split; [exact Hreq|].
    split; [lia | exact Hu].
  - assert (Hsame' : sameRepository api (this st')).
    { destruct Hsame as (?&?&?&?), Hs as (?&?&?&?).
      repeat split; congruence. }
    destruct (Hf a st' Hsame') as (Hs' & new' & Hreq' & Hn' & Hu').
    split.
    { destruct Hs as (?&?&?&?), Hs' as (?&?&?&?). repeat split; congruence. }
    exists (new ++ new'). rewrite Hreq', Hreq, app_assoc.
    split; [reflexivity|]. split; [rewrite length_app; lia|].
    apply Forall_app. split; [exact Hu|].
    rewrite (sameRepository_endpoint _ _ Hs). exact Hu'.
Qed.

Lemma withinFrom_tryCatch {A} api (n k : nat) (m : M A)
    (handler : error -> M A) :
  withinFrom api n m -> (forall e, withinFrom api k (handler e)) ->
  withinFrom api (n + k) (tryCatch m handler).
Proof.
  intros Hm Hh st Hsame. unfold tryCatch.
  destruct (Hm st Hsame) as (Hs & new & Hreq & Hn & Hu).
  destruct (m st) as [[e|a] st'] eqn:Hrun; cbn [snd] in *.
  - assert (Hsame' : sameRepository api (this st')).
    { destruct Hsame as (?&?&?&?), Hs as (?&?&?&?).
      repeat split; congruence. }
    destruct (Hh e st' Hsame') as (Hs' & new' & Hreq' & Hn' & Hu').
    split.
    { destruct Hs as (?&?&?&?), Hs' as (?&?&?&?). repeat split; congruence. }
    exists (new ++ new'). rewrite Hreq', Hreq, app_assoc.
    split; [reflexivity|]. split; [rewrite length_app; lia|].
    apply Forall_app. split; [exact Hu|].
    rewrite (sameRepository_endpoint _ _ Hs). exact Hu'.
  - split; [exact Hs|]. exists new. split; [exact Hreq|].
    split; [lia | exact Hu].
Qed.

Lemma withinFrom_le {A} api (n n' : nat) (m : M A) :
  (n <= n')%nat -> withinFrom api n m -> withinFrom api n' m.
Proof.
  intros Hle Hm st Hsame. destruct (Hm st Hsame) as (Hs & new & Hr & Hn & Hu).
  split; [exact Hs|]. exists new. split; [exact Hr|]. split; [lia|exact Hu].
Qed.

Lemma within_updateCSVContent content commitMessage :
  within 1 (updateCSVContent content commitMessage).
Proof.
  unfold updateCSVContent. apply within_getThis_then. intros st.
  refine (withinFrom_bind (this st) 0 1 _ _ _ _ st
            (sameRepository_refl _)).
  { apply withinFrom_within, within_lift. }
  intros encoded.
  apply (withinFrom_bind _ 1 0); [intros st'; apply within_makeRequest|].
  intros data.
  apply (withinFrom_bind _ 0 0);
    [apply withinFrom_within, within_setBase64Content|]. intros _.
  apply (withinFrom_bind _ 0 0).
  { apply withinFrom_within.
    destruct data; [apply within_setSha | apply within_setSha
                   | apply within_throw]. }
  intros _.
  apply (withinFrom_bind _ 0 0); [apply withinFrom_within, within_dateNow|].
  intros fetched.
  apply (withinFrom_bind _ 0 0);
    [apply withinFrom_within, within_setLastFetch|]. intros _.
  apply withinFrom_within, within_ret.
Qed.

Lemma within_createInitialCSV : within 1 createInitialCSV.
Proof.
  unfold createInitialCSV.
  apply (within_bind 1 0); [apply within_updateCSVContent|].
  intros _. apply within_ret.
Qed.

Lemma within_onReadError e : within 1 (onReadError e).
Proof.
  unfold onReadError. destruct (includes (errorMessage e) (js "404"));
    [apply within_createInitialCSV|].
  apply (within_le 0); [lia | apply within_throw].
Qed.

Lemma within_getCSVContent forceRefresh :
  within 2 (getCSVContent forceRefresh).
Proof.
  unfold getCSVContent. apply within_getThis_then. intros st.
  refine (withinFrom_bind (this st) 0 2 _ _ _ _ st
            (sameRepository_refl _)).
  { apply withinFrom_within, within_dateNow. }
  intros time.
  destruct (negb forceRefresh && cacheIsFresh (this st) time).
  { apply withinFrom_within, (within_le 0); [lia | apply within_lift]. }
  apply (withinFrom_tryCatch _ 1 1);
    [|intros e; apply withinFrom_within, within_onReadError].
  apply (withinFrom_bind _ 1 0); [intros st'; apply within_makeRequest|].
  intros data. apply withinFrom_within.
  destruct data as [type encoded revision|revision|];
    try apply within_throw.
  destruct (bool_decide (type = js "file")); [|apply within_throw].
  apply (within_bind 0 0); [apply within_setBase64Content|]. intros _.
  apply (within_bind 0 0); [apply within_setSha|]. intros _.
  apply (within_bind 0 0); [apply within_dateNow|]. intros fetched.
  apply (within_bind 0 0); [apply within_setLastFetch|]. intros _.
  apply within_lift.
Qed.

Lemma within_appendEntry entry : within 3 (appendEntry entry).
Proof.
  unfold appendEntry.
  apply (within_bind 2 1); [apply within_getCSVContent|].
  intros currentContent.
  apply (within_bind 1 0); [apply within_updateCSVContent|].
  intros _. apply within_ret.
Qed.

Lemma within_clearCache : within 0 clearCache.
Proof.
  unfold clearCache.
  apply (within_bind 0 0); [apply within_setBase64Content|]. intros _.
  apply (within_bind 0 0); [apply within_setSha|]. intros _.
  apply within_setLastFetch.
Qed.

End StepFacts.

(** X19.  The methods of the client never change the owner, the
    repository, the path or the cache timeout of the instance, never
    remove a request from the list of requests, and hand [fetch] only
    requests for the file of the instance: at most two for a read, one for
    a write, three for an append and none for [clearCache]. *)
Theorem client_stays_on_its_file `{Platform} :
  (forall forceRefresh, within 2 (GitHubAPI.getCSVContent forceRefresh)) /\
  (forall content commitMessage,
      within 1 (GitHubAPI.updateCSVContent content commitMessage)) /\
  (forall entry, within 3 (GitHubAPI.appendEntry entry)) /\
  within 0 GitHubAPI.clearCache.
Proof.
  split; [exact within_getCSVContent|].
  split; [exact within_updateCSVContent|].
  split; [exact within_appendEntry | exact within_clearCache].
Qed.
